(** * The threading facade of libimobiledevice-glue (src/thread.c)

    The file embeds the functions of [thread.c] in Rocq and proves properties
    of them.  Three models are used, each following the way the code is
    written:

    - [CInt]: fixed-width C integers as [Z] with the wrap-around written out
      (used by the deadline arithmetic of [cond_wait_timeout]);
    - [Facade]: every function except [thread_once] is a straight-line
      sequence of calls to primitives of the host OS.  Such a function is
      a finite tree of OS calls ([prog]); what the OS answers is not fixed
      by the source, so a run is taken against an arbitrary [handler] and
      the theorems quantify over all handlers;
    - [Once]: [thread_once] is specified under contention, so it is a
      transition system over the shared guard, one atomic step per
      shared-memory access, run under an arbitrary schedule. *)

From Stdlib Require Import ZArith Lia List Bool.
From stdpp Require Import base option list gmap.

Local Open Scope Z_scope.

(** ** Build configuration

    [thread.c] selects its implementation with the preprocessor.  [WIN32]
    stands for [#ifdef _WIN32], [HAVE_PTHREAD_CANCEL] for the macro of the
    same name, and [LONG_BITS] is the width of [long] (and of [time_t] and
    [suseconds_t]) of the target ABI: 64 on LP64, 32 on ILP32. *)
Record config : Type := Config {
  WIN32 : bool;
  HAVE_PTHREAD_CANCEL : bool;
  LONG_BITS : Z
}.

(** ** C integers *)
Module CInt.

(** Value of [x] after conversion to an unsigned integer of [bits] bits. *)
Definition wrap_unsigned (bits x : Z) : Z := x mod 2 ^ bits.

(** Value of [x] after conversion to a signed (two's complement) integer of
    [bits] bits. *)
Definition wrap_signed (bits x : Z) : Z :=
  (x + 2 ^ (bits - 1)) mod 2 ^ bits - 2 ^ (bits - 1).

(** [unsigned int] is 32 bits wide on every ABI the library is built for. *)
Definition UINT_BITS : Z := 32.
Definition UINT_MAX : Z := 2 ^ UINT_BITS - 1.

Definition in_unsigned (bits x : Z) : Prop := 0 <= x < 2 ^ bits.
Definition in_signed (bits x : Z) : Prop :=
  - 2 ^ (bits - 1) <= x < 2 ^ (bits - 1).
Definition signed_max (bits : Z) : Z := 2 ^ (bits - 1) - 1.

(** The cast [(int)] applied to a [DWORD]. *)
Definition to_int (x : Z) : Z := wrap_signed 32 x.

End CInt.

(** ** Data of the facade *)

(** [struct timeval] and [struct timespec] of the POSIX headers. *)
Record timeval : Type := Timeval { tv_sec : Z; tv_usec : Z }.
Record timespec : Type := Timespec { ts_sec : Z; ts_nsec : Z }.

(** Constants of the Windows SDK headers that the source refers to. *)
Definition NULL : Z := 0.
Definition WAIT_OBJECT_0 : Z := 0.
Definition WAIT_TIMEOUT : Z := 258.
Definition WAIT_FAILED : Z := 4294967295.
Definition INFINITE : Z := 4294967295.

(** Error numbers of <errno.h> (Linux values); all of them are positive. *)
Definition EAGAIN : Z := 11.
Definition ETIMEDOUT : Z := 110.

Module Facade.

(** *** Calls to the host OS

    One constructor per primitive that [thread.c] calls; the index is the
    type of what the call hands back.  Arguments that the source always
    passes as [NULL] or [0] (security attributes, stack size, names) are
    left out.  Handles, thread ids and addresses are integers.  A primitive
    with an out-parameter hands the written value back with its result:
    [pthread_create] answers its [int] and what it stored through its first
    argument, if anything; [gettimeofday] answers the [timeval]. *)
Inductive os_call : Type -> Type :=
| CreateThread (start param : Z) : os_call Z
| CloseHandle (h : Z) : os_call Z
| WaitForSingleObject (h ms : Z) : os_call Z
| InitializeCriticalSection (cs : Z) : os_call unit
| DeleteCriticalSection (cs : Z) : os_call unit
| EnterCriticalSection (cs : Z) : os_call unit
| LeaveCriticalSection (cs : Z) : os_call unit
| CreateSemaphore (initial maximum : Z) : os_call Z
| ReleaseSemaphore (h count : Z) : os_call Z
| pthread_create (start arg : Z) : os_call (Z * option Z)
| pthread_detach (t : Z) : os_call Z
| pthread_join (t : Z) : os_call Z
| pthread_kill (t sig : Z) : os_call Z
| pthread_cancel (t : Z) : os_call Z
| pthread_mutex_init (m : Z) : os_call Z
| pthread_mutex_destroy (m : Z) : os_call Z
| pthread_mutex_lock (m : Z) : os_call Z
| pthread_mutex_unlock (m : Z) : os_call Z
| pthread_cond_init (c : Z) : os_call Z
| pthread_cond_destroy (c : Z) : os_call Z
| pthread_cond_signal (c : Z) : os_call Z
| pthread_cond_wait (c m : Z) : os_call Z
| pthread_cond_timedwait (c m : Z) (abstime : timespec) : os_call Z
| gettimeofday : os_call timeval.

(** *** Programs

    A function of the facade: it returns, calls the OS and goes on with the
    answer, or accesses the caller's memory through a pointer argument. *)
Inductive prog (A : Type) : Type :=
| Ret (a : A)
| Call (X : Type) (c : os_call X) (k : X -> prog A)
| Store (addr v : Z) (k : prog A)
| Load (addr : Z) (k : Z -> prog A).
Arguments Ret {A} a.
Arguments Call {A X} c k.
Arguments Store {A} addr v k.
Arguments Load {A} addr k.

Fixpoint bind {A B : Type} (p : prog A) (f : A -> prog B) : prog B :=
  match p with
  | Ret a => f a
  | Call c k => Call c (fun x => bind (k x) f)
  | Store addr v k => Store addr v (bind k f)
  | Load addr k => Load addr (fun x => bind (k x) f)
  end.

Definition call {X : Type} (c : os_call X) : prog X := Call c Ret.
Definition store (addr v : Z) : prog unit := Store addr v (Ret tt).
Definition load (addr : Z) : prog Z := Load addr Ret.

Notation "'let*' x ':=' p 'in' q" := (bind p (fun x => q))
  (at level 10, x pattern, p at level 100, q at level 200).
Notation "p ';;' q" := (bind p (fun _ => q))
  (at level 100, q at level 200, right associativity).

(** *** Runs

    The caller's memory maps addresses to words; a cell never written reads
    as 0.  A [handler] is one behaviour of the OS: against a state [W] of
    its own it answers every call.  A run returns the function's result,
    the memory and OS state it leaves, and the trace of what it did. *)
Definition mem : Type := gmap Z Z.
Definition read (m : mem) (addr : Z) : Z := default 0 (m !! addr).

Inductive event : Type :=
| EvCall (X : Type) (c : os_call X) (x : X)
| EvStore (addr v : Z).
Arguments EvCall {X} c x.

Definition handler (W : Type) : Type := forall X : Type, os_call X -> W -> X * W.

Record outcome (W A : Type) : Type := Outcome {
  ret : A;
  mem_after : mem;
  os_after : W;
  trace : list event
}.
Arguments Outcome {W A} ret mem_after os_after trace.
Arguments ret {W A} o.
Arguments mem_after {W A} o.
Arguments os_after {W A} o.
Arguments trace {W A} o.

Definition logged {W A : Type} (e : event) (o : outcome W A) : outcome W A :=
  Outcome (ret o) (mem_after o) (os_after o) (e :: trace o).

Fixpoint run {W A : Type} (h : handler W) (p : prog A) (m : mem) (w : W)
  : outcome W A :=
  match p with
  | Ret a => Outcome a m w []
  | Call c k =>
      let '(x, w') := h _ c w in logged (EvCall c x) (run h (k x) m w')
  | Store addr v k => logged (EvStore addr v) (run h k (<[addr := v]> m) w)
  | Load addr k => run h (k (read m addr)) m w
  end.

(** *** The functions of thread.c

    Each definition follows its C function statement by statement; the
    branch on [WIN32 cfg] is the [#ifdef _WIN32] of the source. *)

Definition thread_new (cfg : config) (thread thread_func data : Z) : prog Z :=
  if WIN32 cfg then
    let* th := call (CreateThread thread_func data) in
    if th =? NULL then Ret (-1)
    else store thread th ;; Ret 0
  else
    let* (res, out) := call (pthread_create thread_func data) in
    match out with
    | Some tid => store thread tid ;; Ret res
    | None => Ret res
    end.

Definition thread_detach (cfg : config) (thread : Z) : prog unit :=
  if WIN32 cfg then call (CloseHandle thread) ;; Ret tt
  else call (pthread_detach thread) ;; Ret tt.

Definition thread_free (cfg : config) (thread : Z) : prog unit :=
  if WIN32 cfg then call (CloseHandle thread) ;; Ret tt
  else Ret tt.

Definition thread_join (cfg : config) (thread : Z) : prog Z :=
  if WIN32 cfg then
    let* r := call (WaitForSingleObject thread INFINITE) in Ret (CInt.to_int r)
  else call (pthread_join thread).

Definition thread_alive (cfg : config) (thread : Z) : prog Z :=
  if thread =? 0 then Ret 0
  else if WIN32 cfg then
    let* r := call (WaitForSingleObject thread 0) in
    Ret (Z.b2z (r =? WAIT_TIMEOUT))
  else
    let* r := call (pthread_kill thread 0) in
    Ret (Z.b2z (r =? 0)).

Definition thread_cancel (cfg : config) (thread : Z) : prog Z :=
  if WIN32 cfg then Ret (-1)
  else if HAVE_PTHREAD_CANCEL cfg then call (pthread_cancel thread)
  else Ret (-1).

Definition mutex_init (cfg : config) (mutex : Z) : prog unit :=
  if WIN32 cfg then call (InitializeCriticalSection mutex)
  else call (pthread_mutex_init mutex) ;; Ret tt.

Definition mutex_destroy (cfg : config) (mutex : Z) : prog unit :=
  if WIN32 cfg then call (DeleteCriticalSection mutex)
  else call (pthread_mutex_destroy mutex) ;; Ret tt.

Definition mutex_lock (cfg : config) (mutex : Z) : prog unit :=
  if WIN32 cfg then call (EnterCriticalSection mutex)
  else call (pthread_mutex_lock mutex) ;; Ret tt.

Definition mutex_unlock (cfg : config) (mutex : Z) : prog unit :=
  if WIN32 cfg then call (LeaveCriticalSection mutex)
  else call (pthread_mutex_unlock mutex) ;; Ret tt.

(** On Windows [cond_t] is a struct whose only field is the semaphore
    handle [sem]: [cond->sem] is the word at address [cond]. *)
Definition cond_init (cfg : config) (cond : Z) : prog unit :=
  if WIN32 cfg then
    let* h := call (CreateSemaphore 0 32767) in store cond h
  else call (pthread_cond_init cond) ;; Ret tt.

Definition cond_destroy (cfg : config) (cond : Z) : prog unit :=
  if WIN32 cfg then
    let* sem := load cond in call (CloseHandle sem) ;; Ret tt
  else call (pthread_cond_destroy cond) ;; Ret tt.

Definition cond_signal (cfg : config) (cond : Z) : prog Z :=
  if WIN32 cfg then
    let* sem := load cond in
    let* ok := call (ReleaseSemaphore sem 1) in
    if ok =? 0 then Ret (-1) else Ret 0
  else call (pthread_cond_signal cond).

Definition cond_wait (cfg : config) (cond mutex : Z) : prog Z :=
  if WIN32 cfg then
    mutex_unlock cfg mutex ;;
    let* sem := load cond in
    let* res := call (WaitForSingleObject sem INFINITE) in
    if res =? WAIT_OBJECT_0 then Ret 0 else Ret (-1)
  else call (pthread_cond_wait cond mutex).

(** Lines 212-215: the absolute deadline.  [timeout_ms] is an
    [unsigned int]; [tv_sec], [tv_usec] and [tv_nsec] are [long]s of
    [LONG_BITS cfg] bits.  [1000 * 1000 * (timeout_ms % 1000)] is computed
    in [unsigned int]; every sum and product involving a [long] is
    computed in [long].  [/] and [%] of C truncate towards zero
    ([Z.quot], [Z.rem]). *)
Definition deadline (cfg : config) (now : timeval) (timeout_ms : Z) : timespec :=
  let long := CInt.wrap_signed (LONG_BITS cfg) in
  let uint := CInt.wrap_unsigned CInt.UINT_BITS in
  let sec0 := long (tv_sec now + Z.quot timeout_ms 1000) in
  let nsec0 :=
    long (long (tv_usec now * 1000)
          + uint (1000 * 1000 * Z.rem timeout_ms 1000)) in
  let sec1 := long (sec0 + Z.quot nsec0 (1000 * 1000 * 1000)) in
  let nsec1 := Z.rem nsec0 (1000 * 1000 * 1000) in
  Timespec sec1 nsec1.

Definition cond_wait_timeout (cfg : config) (cond mutex timeout_ms : Z) : prog Z :=
  if WIN32 cfg then
    mutex_unlock cfg mutex ;;
    let* sem := load cond in
    let* res := call (WaitForSingleObject sem timeout_ms) in
    if (res =? WAIT_OBJECT_0) || (res =? WAIT_TIMEOUT) then Ret 0
    else Ret (-1)
  else
    let* now := call gettimeofday in
    call (pthread_cond_timedwait cond mutex (deadline cfg now timeout_ms)).

(** *** A scripted OS

    One concrete family of handlers, used to run the functions on concrete
    inputs.  The integers the OS answers are taken from a script, in order
    (0 once the script is used up); what the handler keeps track of is
    which mutexes and critical sections the calling thread owns.
    [pthread_cond_wait] and [pthread_cond_timedwait] leave the ownership as
    it was: POSIX has them return with the mutex locked by the caller. *)
Record scripted : Type := Scripted {
  owned : list Z;
  script : list Z;
  clock : timeval
}.

Definition next (w : scripted) : Z * scripted :=
  match script w with
  | [] => (0, w)
  | a :: s => (a, Scripted (owned w) s (clock w))
  end.

Definition acquire (mutex : Z) (w : scripted) : scripted :=
  Scripted (mutex :: owned w) (script w) (clock w).

Definition release (mutex : Z) (w : scripted) : scripted :=
  Scripted (List.remove Z.eq_dec mutex (owned w)) (script w) (clock w).

Definition scripted_os : handler scripted := fun X c =>
  match c in os_call X return scripted -> X * scripted with
  | EnterCriticalSection cs => fun w => (tt, acquire cs w)
  | LeaveCriticalSection cs => fun w => (tt, release cs w)
  | InitializeCriticalSection _ => fun w => (tt, w)
  | DeleteCriticalSection _ => fun w => (tt, w)
  | pthread_mutex_lock mutex => fun w =>
      let '(a, w') := next w in (a, if a =? 0 then acquire mutex w' else w')
  | pthread_mutex_unlock mutex => fun w =>
      let '(a, w') := next w in (a, if a =? 0 then release mutex w' else w')
  | pthread_create _ _ => fun w =>
      let '(res, w1) := next w in
      if res =? 0 then let '(tid, w2) := next w1 in ((0, Some tid), w2)
      else ((res, None), w1)
  | gettimeofday => fun w => (clock w, w)
  | _ => next
  end.

(** What a trace says about the caller's memory and about thread creation. *)
Definition is_store_to (addr : Z) (e : event) : bool :=
  match e with
  | EvStore a _ => a =? addr
  | EvCall _ _ => false
  end.

Definition written (addr : Z) (tr : list event) : bool :=
  existsb (is_store_to addr) tr.

Definition is_creation (e : event) : bool :=
  match e with
  | EvCall (CreateThread _ _) _ => true
  | EvCall (pthread_create _ _) _ => true
  | _ => false
  end.

Definition creations (tr : list event) : nat :=
  length (List.filter is_creation tr).

Definition is_reacquire (mutex : Z) (e : event) : bool :=
  match e with
  | EvCall (EnterCriticalSection cs) _ => cs =? mutex
  | EvCall (pthread_mutex_lock mu) _ => mu =? mutex
  | _ => false
  end.

(** Properties of a program that hold whatever the OS answers: it never
    stores to the caller's memory; every result it can return satisfies
    [P]. *)
Fixpoint store_free {A : Type} (p : prog A) : Prop :=
  match p with
  | Ret _ => True
  | Call c k => forall x, store_free (k x)
  | Store _ _ _ => False
  | Load _ k => forall x, store_free (k x)
  end.

Fixpoint results {A : Type} (P : A -> Prop) (p : prog A) : Prop :=
  match p with
  | Ret a => P a
  | Call c k => forall x, results P (k x)
  | Store _ _ k => results P k
  | Load _ k => forall x, results P (k x)
  end.

(** The claim about the deadline, for one start time and timeout: the
    deadline is the start time plus [timeout_ms] milliseconds, counted in
    nanoseconds, and its nanosecond field is normalized. *)
Definition deadline_exact (cfg : config) (now : timeval) (timeout_ms : Z) : Prop :=
  let ts := deadline cfg now timeout_ms in
  ts_sec ts * 1000000000 + ts_nsec ts =
    tv_sec now * 1000000000 + tv_usec now * 1000 + timeout_ms * 1000000 /\
  0 <= ts_nsec ts < 1000000000.

(** The seconds of the exact deadline: start time plus timeout, in
    nanoseconds, divided by 10^9. *)
Definition exact_seconds (now : timeval) (timeout_ms : Z) : Z :=
  (tv_sec now * 1000000000 + tv_usec now * 1000 + timeout_ms * 1000000)
  / 1000000000.

(** Inputs of the concrete runs: an LP64 POSIX build with and without
    [pthread_cancel], a Windows build, and a scripted OS that owns nothing
    yet and answers from [answers]. *)
Definition posix : config := Config false true 64.
Definition posix_nocancel : config := Config false false 64.
Definition windows : config := Config true false 64.
Definition os0 (answers : list Z) : scripted :=
  Scripted [] answers (Timeval 1700000000 999999).

End Facade.

(** ** thread_once under contention *)
Module Once.

Local Open Scope nat_scope.

(** Program points of a caller of [thread_once], named after the source
    line about to be executed.  [L135]-[L142] are the Windows path,
    [L144] is the POSIX path, the call of [pthread_once].  [InInit] is
    inside [init_routine]. *)
Inductive pc : Type :=
| L135       (* while (InterlockedExchange(&(once_control->lock), 1) != 0) *)
| L136       (*   Sleep(1); *)
| L138       (* if (!once_control->state) *)
| L139       (*   once_control->state = 1; *)
| L140       (*   init_routine();  -- the call *)
| InInit     (*   ... the body of init_routine, up to its return *)
| L142       (* InterlockedExchange(&(once_control->lock), 0); *)
| L144       (* pthread_once(once_control, init_routine); *)
| L144_done  (*   ... pthread_once after init_routine has returned *)
| Returned.  (* thread_once has returned to its caller *)

Definition pc_eqb (a b : pc) : bool :=
  match a, b with
  | L135, L135 | L136, L136 | L138, L138 | L139, L139 | L140, L140
  | InInit, InInit | L142, L142 | L144, L144 | L144_done, L144_done
  | Returned, Returned => true
  | _, _ => false
  end.

(** The shared state: the guard ([lock] and [state] are the fields of the
    Windows [thread_once_t], [once] is the POSIX [pthread_once_t] with
    0 = PTHREAD_ONCE_INIT, 1 = in progress, 2 = done), the [counter] that
    the initializer increments, and the program point of every caller.
    [entered] and [returned] are history: which callers have entered
    [init_routine], and how many times it has returned. *)
Record machine : Type := Machine {
  lock : Z;
  state : Z;
  once : Z;
  counter : Z;
  entered : list nat;
  returned : nat;
  pcs : list pc
}.

Definition goto (i : nat) (l : pc) (s : machine) : machine :=
  Machine (lock s) (state s) (once s) (counter s) (entered s) (returned s)
    (<[i := l]> (pcs s)).
Definition set_lock (v : Z) (s : machine) : machine :=
  Machine v (state s) (once s) (counter s) (entered s) (returned s) (pcs s).
Definition set_state (v : Z) (s : machine) : machine :=
  Machine (lock s) v (once s) (counter s) (entered s) (returned s) (pcs s).
Definition set_once (v : Z) (s : machine) : machine :=
  Machine (lock s) (state s) v (counter s) (entered s) (returned s) (pcs s).
Definition enter_init (i : nat) (s : machine) : machine :=
  Machine (lock s) (state s) (once s) (counter s) (i :: entered s) (returned s)
    (pcs s).

(** The initializer of the claims: it increments the counter and returns. *)
Definition init_routine (s : machine) : machine :=
  Machine (lock s) (state s) (once s) (counter s + 1)%Z (entered s)
    (S (returned s)) (pcs s).

(** Modelled from the spec: [pthread_once], a primitive of the host OS
    that thread.c calls and does not define; on the native path the
    primitive provides the exactly-once execution (4.3).  The steps follow
    POSIX: the first caller to find the guard untouched marks it in
    progress and runs [init_routine]; a caller that finds the routine in
    progress waits where it is; once the routine has returned
    ([after_init]) the guard is marked done, and whoever finds it done
    returns. *)
Definition pthread_once (i : nat) (after_init : bool) (s : machine) : machine :=
  if after_init then goto i Returned (set_once 2 s)
  else if (once s =? 0)%Z then goto i InInit (enter_init i (set_once 1 s))
  else if (once s =? 1)%Z then s
  else goto i Returned s.

(** One atomic step of caller [i].  [InterlockedExchange] reads the old
    value and writes the new one in the same step. *)
Definition step (cfg : config) (i : nat) (s : machine) : machine :=
  match pcs s !! i with
  | None => s
  | Some L135 =>
      let old := lock s in
      goto i (if (old =? 0)%Z then L138 else L136) (set_lock 1 s)
  | Some L136 => goto i L135 s
  | Some L138 => goto i (if (state s =? 0)%Z then L139 else L142) s
  | Some L139 => goto i L140 (set_state 1 s)
  | Some L140 => goto i InInit (enter_init i s)
  | Some InInit =>
      goto i (if WIN32 cfg then L142 else L144_done) (init_routine s)
  | Some L142 => goto i Returned (set_lock 0 s)
  | Some L144 => pthread_once i false s
  | Some L144_done => pthread_once i true s
  | Some Returned => s
  end.

(** A schedule names the caller that takes each step. *)
Fixpoint exec (cfg : config) (sched : list nat) (s : machine) : machine :=
  match sched with
  | [] => s
  | i :: rest => exec cfg rest (step cfg i s)
  end.

Definition entry (cfg : config) : pc := if WIN32 cfg then L135 else L144.

(** Modelled from the spec: the initial value of the guard, which thread.h
    declares (THREAD_ONCE_INIT) and thread.c does not: "not yet run", that
    is [state] 0 with the lock free, resp. PTHREAD_ONCE_INIT.  [K] callers
    are about to call [thread_once] on such a guard, the counter at 0. *)
Definition init (cfg : config) (K : nat) : machine :=
  Machine 0 0 0 0 [] 0 (replicate K (entry cfg)).

Definition all_returned (s : machine) : bool :=
  forallb (pc_eqb Returned) (pcs s).

(** Number of callers at program point [l]. *)
Fixpoint at_pc (l : pc) (ps : list pc) : nat :=
  match ps with
  | [] => 0
  | p :: ps' => (if pc_eqb l p then 1 else 0) + at_pc l ps'
  end.

(** Callers between the successful exchange of line 135 and the release of
    line 142: the holders of the guard's lock. *)
Definition holders (ps : list pc) : nat :=
  at_pc L138 ps + at_pc L139 ps + at_pc L140 ps + at_pc InInit ps
  + at_pc L142 ps.

(** The invariant of the Windows path.  No caller is on the POSIX path; the
    lock is 1 exactly while one caller holds it; and the guard is in one of
    four phases: not yet run; marked as run with the call of the
    initializer pending; the initializer running; the initializer
    returned. *)
Definition inv_win (s : machine) : Prop :=
  let ps := pcs s in
  at_pc L144 ps = 0 /\ at_pc L144_done ps = 0 /\
  lock s = Z.of_nat (holders ps) /\ holders ps <= 1 /\
  ((state s = 0%Z /\ length (entered s) = 0 /\ returned s = 0 /\
    counter s = 0%Z /\ at_pc L140 ps = 0 /\ at_pc InInit ps = 0 /\
    at_pc L142 ps = 0 /\ at_pc Returned ps = 0) \/
   (state s = 1%Z /\ length (entered s) = 0 /\ returned s = 0 /\
    counter s = 0%Z /\ at_pc L140 ps = 1 /\ at_pc Returned ps = 0) \/
   (state s = 1%Z /\ length (entered s) = 1 /\ returned s = 0 /\
    counter s = 0%Z /\ at_pc InInit ps = 1 /\ at_pc Returned ps = 0) \/
   (state s = 1%Z /\ length (entered s) = 1 /\ returned s = 1 /\
    counter s = 1%Z /\ at_pc L139 ps = 0 /\ at_pc L140 ps = 0 /\
    at_pc InInit ps = 0)).

(** The invariant of the POSIX path: no caller is on the Windows path, and
    the guard is untouched, in progress with the initializer running, in
    progress with the initializer returned, or done. *)
Definition inv_posix (s : machine) : Prop :=
  let ps := pcs s in
  at_pc L135 ps = 0 /\ at_pc L136 ps = 0 /\ at_pc L138 ps = 0 /\
  at_pc L139 ps = 0 /\ at_pc L140 ps = 0 /\ at_pc L142 ps = 0 /\
  ((once s = 0%Z /\ length (entered s) = 0 /\ returned s = 0 /\
    counter s = 0%Z /\ at_pc InInit ps = 0 /\ at_pc L144_done ps = 0 /\
    at_pc Returned ps = 0) \/
   (once s = 1%Z /\ length (entered s) = 1 /\ returned s = 0 /\
    counter s = 0%Z /\ at_pc InInit ps = 1 /\ at_pc L144_done ps = 0 /\
    at_pc Returned ps = 0) \/
   (once s = 1%Z /\ length (entered s) = 1 /\ returned s = 1 /\
    counter s = 1%Z /\ at_pc InInit ps = 0 /\ at_pc L144_done ps = 1 /\
    at_pc Returned ps = 0) \/
   (once s = 2%Z /\ length (entered s) = 1 /\ returned s = 1 /\
    counter s = 1%Z /\ at_pc InInit ps = 0 /\ at_pc L144_done ps = 0)).

Definition inv (cfg : config) (s : machine) : Prop :=
  if WIN32 cfg then inv_win s else inv_posix s.

(** The guard can be passed without waiting: the lock is free, resp. the
    POSIX guard is untouched or done. *)
Definition guard_free (cfg : config) (s : machine) : Prop :=
  if WIN32 cfg then lock s = 0%Z else once s = 0%Z \/ once s = 2%Z.

(** Program points inside the guarded region: on Windows from the
    successful exchange to the release of the lock, on POSIX from the
    start of the initializer to the marking of the guard as done. *)
Definition holder_pc (l : pc) : bool :=
  match l with
  | L138 | L139 | L140 | InInit | L142 | L144_done => true
  | L135 | L136 | L144 | Returned => false
  end.

(** Number of callers inside the guarded region. *)
Definition held (ps : list pc) : nat := holders ps + at_pc L144_done ps.

(** Program points of a caller that is outside the guarded region on the
    given build: before the guard, or returned. *)
Definition idle_pc (cfg : config) (l : pc) : bool :=
  match l with
  | L135 | L136 => WIN32 cfg
  | L144 => negb (WIN32 cfg)
  | Returned => true
  | _ => false
  end.

(** One more round: every caller in turn, seven steps each (the longest
    way from line 136 to the return). *)
Definition round (K : nat) : list nat :=
  flat_map (fun i => replicate 7 i) (seq 0 K).

(** The schedule that lets the callers run one after the other, six steps
    each (the longest path through [thread_once]). *)
Definition sequential (K : nat) : list nat :=
  flat_map (fun i => replicate 6 i) (seq 0 K).

End Once.

(** * Properties of the facade *)

Import Facade Once.

Section FacadeProperties.

Context {W : Type}.
Variable h : handler W.
Variable cfg : config.

(** C5: on a build without cancellation support (Windows, or POSIX without
    HAVE_PTHREAD_CANCEL) [thread_cancel] is the program that returns -1:
    whatever the handle and the OS, it returns -1, calls no primitive and
    leaves memory and OS state as they were. *)
Theorem thread_cancel_unsupported (thread : Z) :
  WIN32 cfg = true \/ HAVE_PTHREAD_CANCEL cfg = false ->
  thread_cancel cfg thread = Ret (-1) /\
  forall (m : mem) (w : W),
    run h (thread_cancel cfg thread) m w = Outcome (-1) m w [].
Proof.
  intros Hcfg.
  assert (Hprog : thread_cancel cfg thread = Ret (-1)).
  { unfold thread_cancel.
    destruct Hcfg as [-> | Hno]; [reflexivity |].
    rewrite Hno. now destruct (WIN32 cfg). }
  split; [exact Hprog |].
  intros m w. now rewrite Hprog.
Qed.

(** C6: for a null handle [thread_alive] returns 0 and calls no OS
    primitive; for any other handle it makes exactly one call, the
    platform's liveness probe of that handle (a zero-timeout wait on
    Windows, signal 0 on POSIX), and returns 1 exactly when the probe says
    the thread is still running (WAIT_TIMEOUT, resp. 0), else 0. *)
Theorem thread_alive_spec (thread : Z) (m : mem) (w : W) :
  (thread = NULL ->
     thread_alive cfg thread = Ret 0 /\
     run h (thread_alive cfg thread) m w = Outcome 0 m w []) /\
  (thread <> NULL ->
     let probe :=
       if WIN32 cfg then WaitForSingleObject thread 0
       else pthread_kill thread 0 in
     let running (r : Z) :=
       if WIN32 cfg then r =? WAIT_TIMEOUT else r =? 0 in
     exists (r : Z) (w' : W),
       h Z probe w = (r, w') /\
       run h (thread_alive cfg thread) m w =
         Outcome (Z.b2z (running r)) m w' [EvCall probe r]).
Proof.
  split.
  - intros ->. split; reflexivity.
  - intros Hnn probe running.
    destruct (h Z probe w) as [r w'] eqn:Hh.
    exists r, w'. split; [reflexivity |].
    unfold thread_alive, probe, running in *.
    apply Z.eqb_neq in Hnn. unfold NULL in Hnn. rewrite Hnn.
    destruct (WIN32 cfg); simpl; rewrite Hh; reflexivity.
Qed.

(** C7: [thread_new] asks the OS for a thread exactly once.  When the OS
    creates it (a non-null handle from CreateThread; 0 from pthread_create
    together with the id it stored) the handle is in [*thread] afterwards
    and the result is 0.  When the OS refuses (NULL, resp. a nonzero error
    number) the result is -1, resp. that error number: nonzero, and there
    was no second attempt. *)
Theorem thread_new_spec (thread thread_func data : Z) (m : mem) (w : W) :
  let o := run h (thread_new cfg thread thread_func data) m w in
  creations (trace o) = 1%nat /\
  (WIN32 cfg = true ->
     let th := fst (h Z (CreateThread thread_func data) w) in
     (th <> NULL -> ret o = 0 /\ mem_after o !! thread = Some th) /\
     (th = NULL -> ret o = -1)) /\
  (WIN32 cfg = false ->
     let answer := fst (h _ (pthread_create thread_func data) w) in
     ret o = fst answer /\
     (forall tid : Z, fst answer = 0 -> snd answer = Some tid ->
        ret o = 0 /\ mem_after o !! thread = Some tid) /\
     (fst answer <> 0 -> ret o <> 0)).
Proof.
  intros o. subst o. unfold thread_new.
  destruct (WIN32 cfg); simpl.
  - destruct (h Z (CreateThread thread_func data) w) as [th w'] eqn:Hh; simpl.
    destruct (Z.eqb_spec th NULL) as [-> | Hth]; simpl.
    + split; [reflexivity |]. split; [| discriminate].
      intros _. split; [congruence | reflexivity].
    + split; [reflexivity |]. split; [| discriminate].
      intros _. split; [| congruence].
      intros _. split; [reflexivity | apply lookup_insert_eq].
  - destruct (h _ (pthread_create thread_func data) w) as [[res out] w'] eqn:Hh.
    simpl. destruct out as [tid |]; simpl.
    + split; [reflexivity |]. split; [discriminate |].
      intros _. split; [reflexivity |]. split; [| tauto].
      intros tid' Hres [= <-]. split; [exact Hres | apply lookup_insert_eq].
    + split; [reflexivity |]. split; [discriminate |].
      intros _. split; [reflexivity |]. split; [discriminate | tauto].
Qed.

(** C10: on the Windows path [*thread] is written if and only if
    [thread_new] returns 0.  When CreateThread fails (NULL) the result is
    -1, nothing is stored and memory is what it was; otherwise the one
    store puts the new handle into [*thread]. *)
Theorem thread_new_win32_frame (thread thread_func data : Z) (m : mem) (w : W) :
  WIN32 cfg = true ->
  let o := run h (thread_new cfg thread thread_func data) m w in
  let th := fst (h Z (CreateThread thread_func data) w) in
  (written thread (trace o) = true <-> ret o = 0) /\
  (th = NULL ->
     ret o = -1 /\ mem_after o = m /\
     forall addr : Z, written addr (trace o) = false) /\
  (th <> NULL ->
     ret o = 0 /\ mem_after o = <[thread := th]> m /\
     trace o = [EvCall (CreateThread thread_func data) th; EvStore thread th]).
Proof.
  intros Hwin o th. subst o th. unfold thread_new. rewrite Hwin. simpl.
  destruct (h Z (CreateThread thread_func data) w) as [th w'] eqn:Hh; simpl.
  destruct (Z.eqb_spec th NULL) as [-> | Hth]; simpl.
  - split; [split; discriminate |].
    split; [| congruence]. intros _. repeat split.
  - rewrite Z.eqb_refl. simpl.
    split; [split; reflexivity |].
    split; [congruence |]. intros _. repeat split.
Qed.

End FacadeProperties.

Section ConditionVariable.

Context {W : Type}.
Variable h : handler W.
Variable cfg : config.

(** C8: [cond_signal] makes exactly one call, the wake primitive with one
    unit of wakeup (one permit of the semaphore [cond->sem] on Windows,
    pthread_cond_signal on POSIX).  Its result is nonzero if and only if
    that primitive failed (ReleaseSemaphore answered FALSE, resp.
    pthread_cond_signal answered nonzero) and 0 otherwise; the failure is
    -1 on Windows and the primitive's own result on POSIX; nothing is
    retried and memory is untouched. *)
Theorem cond_signal_spec (cond : Z) (m : mem) (w : W) :
  let o := run h (cond_signal cfg cond) m w in
  let wake :=
    if WIN32 cfg then ReleaseSemaphore (read m cond) 1
    else pthread_cond_signal cond in
  let failed (r : Z) := if WIN32 cfg then r =? 0 else negb (r =? 0) in
  exists r : Z,
    h Z wake w = (r, os_after o) /\
    trace o = [EvCall wake r] /\
    mem_after o = m /\
    (ret o <> 0 <-> failed r = true) /\
    (failed r = false -> ret o = 0) /\
    (WIN32 cfg = true -> failed r = true -> ret o = -1) /\
    (WIN32 cfg = false -> ret o = r).
Proof.
  intros o wake failed. subst o wake failed. unfold cond_signal.
  destruct (WIN32 cfg); simpl.
  - destruct (h Z (ReleaseSemaphore (read m cond) 1) w) as [ok w'] eqn:Hh.
    exists ok. simpl.
    destruct (Z.eqb_spec ok 0) as [-> | Hok]; simpl;
      repeat split; try reflexivity; try discriminate; try tauto.
  - destruct (h Z (pthread_cond_signal cond) w) as [res w'] eqn:Hh.
    exists res. simpl.
    destruct (Z.eqb_spec res 0) as [-> | Hres]; simpl;
      repeat split; try reflexivity; try discriminate; try tauto.
Qed.

(** What the Windows path of [cond_wait] does, whatever the OS answers: it
    leaves the critical section, waits on the semaphore without a timeout
    and returns 0 for WAIT_OBJECT_0 and -1 otherwise.  The critical
    section is not entered again. *)
Lemma cond_wait_win32_trace (cond mutex : Z) (m : mem) (w : W) :
  WIN32 cfg = true ->
  let o := run h (cond_wait cfg cond mutex) m w in
  exists r : Z,
    trace o = [EvCall (LeaveCriticalSection mutex) tt;
               EvCall (WaitForSingleObject (read m cond) INFINITE) r] /\
    existsb (is_reacquire mutex) (trace o) = false /\
    ret o = (if r =? WAIT_OBJECT_0 then 0 else -1).
Proof.
  intros Hwin o. subst o. unfold cond_wait, mutex_unlock. rewrite Hwin. simpl.
  destruct (h unit (LeaveCriticalSection mutex) w) as [[] w1]; simpl.
  destruct (h Z (WaitForSingleObject (read m cond) INFINITE) w1) as [r w2].
  exists r. simpl. destruct (r =? WAIT_OBJECT_0); simpl; repeat split.
Qed.

(** The POSIX path of [cond_wait] is the primitive and nothing else. *)
Lemma cond_wait_posix_trace (cond mutex : Z) (m : mem) (w : W) :
  WIN32 cfg = false ->
  let o := run h (cond_wait cfg cond mutex) m w in
  exists r : Z,
    trace o = [EvCall (pthread_cond_wait cond mutex) r] /\ ret o = r.
Proof.
  intros Hwin o. subst o. unfold cond_wait. rewrite Hwin. simpl.
  destruct (h Z (pthread_cond_wait cond mutex) w) as [r w1].
  exists r. split; reflexivity.
Qed.

(** The Windows path of [cond_wait_timeout] reports both a signal and an
    elapsed timeout as 0, and any other answer of the wait as -1. *)
Lemma cond_wait_timeout_win32_result (cond mutex timeout_ms : Z) (m : mem) (w : W) :
  WIN32 cfg = true ->
  let o := run h (cond_wait_timeout cfg cond mutex timeout_ms) m w in
  exists r : Z,
    trace o = [EvCall (LeaveCriticalSection mutex) tt;
               EvCall (WaitForSingleObject (read m cond) timeout_ms) r] /\
    (r = WAIT_OBJECT_0 \/ r = WAIT_TIMEOUT -> ret o = 0) /\
    (r <> WAIT_OBJECT_0 -> r <> WAIT_TIMEOUT -> ret o = -1).
Proof.
  intros Hwin o. subst o. unfold cond_wait_timeout, mutex_unlock.
  rewrite Hwin. simpl.
  destruct (h unit (LeaveCriticalSection mutex) w) as [[] w1]; simpl.
  destruct (h Z (WaitForSingleObject (read m cond) timeout_ms) w1) as [r w2].
  exists r. simpl.
  destruct (Z.eqb_spec r WAIT_OBJECT_0), (Z.eqb_spec r WAIT_TIMEOUT); simpl;
    repeat split; try reflexivity; tauto.
Qed.

(** The POSIX path of [cond_wait_timeout] reads the clock, waits until the
    deadline and returns what pthread_cond_timedwait answered, unchanged. *)
Lemma cond_wait_timeout_posix_result (cond mutex timeout_ms : Z) (m : mem) (w : W) :
  WIN32 cfg = false ->
  let o := run h (cond_wait_timeout cfg cond mutex timeout_ms) m w in
  exists (now : timeval) (r : Z),
    fst (h _ gettimeofday w) = now /\
    trace o = [EvCall gettimeofday now;
               EvCall (pthread_cond_timedwait cond mutex
                         (deadline cfg now timeout_ms)) r] /\
    ret o = r.
Proof.
  intros Hwin o. subst o. unfold cond_wait_timeout. rewrite Hwin. simpl.
  destruct (h _ gettimeofday w) as [now w1]; simpl.
  destruct (h Z (pthread_cond_timedwait cond mutex
                   (deadline cfg now timeout_ms)) w1) as [r w2].
  exists now, r. repeat split.
Qed.

End ConditionVariable.

(** C1 does not hold on the Windows path.  On a Windows build, with the
    scripted OS in any state and any condition variable and mutex,
    [cond_wait] leaves the critical section, waits, and returns without
    entering it again: the caller does not own the mutex afterwards, also
    when the result is 0.  On a POSIX build the same call leaves the
    ownership as it was.  The last part is the run in which the caller
    owns the mutex at 32 and the wait on the semaphore 81 succeeds. *)
Theorem cond_wait_win32_returns_without_mutex
    (cond mutex : Z) (m : mem) (w : scripted) :
  let on_windows := run scripted_os (cond_wait windows cond mutex) m w in
  let on_posix := run scripted_os (cond_wait posix cond mutex) m w in
  (~ In mutex (owned (os_after on_windows)) /\
   existsb (is_reacquire mutex) (trace on_windows) = false) /\
  owned (os_after on_posix) = owned w /\
  (let o := run scripted_os (cond_wait windows 16 32) (<[16 := 81]> ∅)
              (Scripted [32] [WAIT_OBJECT_0] (Timeval 1700000000 0)) in
   ret o = 0 /\ owned (os_after o) = [] /\
   trace o = [EvCall (LeaveCriticalSection 32) tt;
              EvCall (WaitForSingleObject 81 INFINITE) WAIT_OBJECT_0]).
Proof.
  intros on_windows on_posix. split; [split |split].
  - subst on_windows. destruct w as [held [| a rest] now]; cbn.
    + apply remove_In.
    + destruct (a =? WAIT_OBJECT_0); cbn; apply remove_In.
  - destruct (cond_wait_win32_trace scripted_os windows cond mutex m w eq_refl)
      as (r & _ & Hnone & _).
    exact Hnone.
  - subst on_posix. destruct w as [held [| a rest] now]; reflexivity.
  - vm_compute. repeat split.
Qed.

(** C2 does not hold on the POSIX path.  On a POSIX build, when
    pthread_cond_timedwait answers ETIMEDOUT because no signal arrived in
    time, [cond_wait_timeout] returns ETIMEDOUT, which is not 0: a pure
    timeout is reported as a failure.  On a Windows build the wait answers
    WAIT_TIMEOUT in that situation and [cond_wait_timeout] returns 0. *)
Theorem cond_wait_timeout_posix_timeout_nonzero
    (cond mutex timeout_ms : Z) (m : mem) (held rest : list Z) (now : timeval) :
  let on_posix :=
    run scripted_os (cond_wait_timeout posix cond mutex timeout_ms) m
      (Scripted held (ETIMEDOUT :: rest) now) in
  let on_windows :=
    run scripted_os (cond_wait_timeout windows cond mutex timeout_ms) m
      (Scripted held (WAIT_TIMEOUT :: rest) now) in
  (ret on_posix = ETIMEDOUT /\ ret on_posix <> 0 /\
   trace on_posix =
     [EvCall gettimeofday now;
      EvCall (pthread_cond_timedwait cond mutex
                (deadline posix now timeout_ms)) ETIMEDOUT]) /\
  ret on_windows = 0.
Proof.
  intros on_posix on_windows.
  assert (Hret : ret on_posix = ETIMEDOUT) by reflexivity.
  split; [split; [exact Hret | split] | reflexivity].
  - rewrite Hret. discriminate.
  - reflexivity.
Qed.

(** * The deadline of cond_wait_timeout (POSIX path) *)

Lemma wrap_signed_small (bits x : Z) :
  1 <= bits -> CInt.in_signed bits x -> CInt.wrap_signed bits x = x.
Proof.
  unfold CInt.in_signed, CInt.wrap_signed. intros Hbits Hx.
  assert (H2 : 2 ^ bits = 2 * 2 ^ (bits - 1)).
  { replace bits with (Z.succ (bits - 1)) at 1 by lia.
    apply Z.pow_succ_r. lia. }
  rewrite H2, Z.mod_small; lia.
Qed.

Lemma wrap_unsigned_small (bits x : Z) :
  CInt.in_unsigned bits x -> CInt.wrap_unsigned bits x = x.
Proof. unfold CInt.in_unsigned, CInt.wrap_unsigned. apply Z.mod_small. Qed.

Lemma long_holds_int32 (bits : Z) : 32 <= bits -> 2 ^ 31 <= 2 ^ (bits - 1).
Proof. intros Hbits. apply Z.pow_le_mono_r; lia. Qed.

(** The nanosecond sum of line 213 before normalization: it is below 2^31,
    so no [long] and no [unsigned int] wraps while it is computed. *)
Lemma deadline_nsec (cfg : config) (now : timeval) (timeout_ms : Z) :
  32 <= LONG_BITS cfg ->
  0 <= tv_usec now < 1000000 ->
  0 <= timeout_ms ->
  let n := tv_usec now * 1000 + 1000000 * (timeout_ms mod 1000) in
  0 <= n < 2 ^ 31 /\
  ts_nsec (deadline cfg now timeout_ms) = n mod 1000000000 /\
  ts_sec (deadline cfg now timeout_ms) =
    CInt.wrap_signed (LONG_BITS cfg)
      (CInt.wrap_signed (LONG_BITS cfg) (tv_sec now + timeout_ms / 1000)
       + n / 1000000000).
Proof.
  intros Hbits Husec Hms n.
  pose proof (long_holds_int32 _ Hbits) as Hlong.
  pose proof (Z.mod_pos_bound timeout_ms 1000 ltac:(lia)) as Hrem.
  assert (Hn : 0 <= n < 2 ^ 31) by (subst n; lia).
  assert (Hnsec0 :
    CInt.wrap_signed (LONG_BITS cfg)
      (CInt.wrap_signed (LONG_BITS cfg) (tv_usec now * 1000)
       + CInt.wrap_unsigned CInt.UINT_BITS
           (1000 * 1000 * Z.rem timeout_ms 1000)) = n).
  { rewrite Z.rem_mod_nonneg by lia.
    rewrite (wrap_signed_small _ (tv_usec now * 1000))
      by (unfold CInt.in_signed; lia).
    rewrite wrap_unsigned_small
      by (unfold CInt.in_unsigned, CInt.UINT_BITS; lia).
    change (1000 * 1000) with 1000000.
    apply wrap_signed_small; [lia | unfold CInt.in_signed; subst n; lia]. }
  split; [exact Hn |].
  unfold deadline. cbn [ts_sec ts_nsec]. rewrite Hnsec0.
  change (1000 * 1000 * 1000) with 1000000000.
  rewrite Z.rem_mod_nonneg, !Z.quot_div_nonneg by lia.
  split; reflexivity.
Qed.

(** C9 as stated fails where [time_t] overflows: at the last second a
    64-bit [time_t] can hold, a timeout of one second wraps the seconds
    field to the most negative value. *)
Lemma deadline_overflow_counterexample :
  let now := Timeval 9223372036854775807 0 in
  CInt.in_signed (LONG_BITS posix) (tv_sec now) /\
  0 <= tv_usec now < 1000000 /\
  CInt.in_unsigned CInt.UINT_BITS 1000 /\
  deadline posix now 1000 = Timespec (-9223372036854775808) 0 /\
  ~ deadline_exact posix now 1000.
Proof.
  cbv zeta. repeat split; try (vm_compute; congruence).
  intros [Hsum _]. vm_compute in Hsum. discriminate Hsum.
Qed.

(** The same with a 32-bit [time_t], where the last second is
    03:14:07 UTC on 19 January 2038. *)
Lemma deadline_overflow_ilp32 :
  let now := Timeval 2147483647 0 in
  deadline (Config false true 32) now 1000 = Timespec (-2147483648) 0 /\
  ~ deadline_exact (Config false true 32) now 1000.
Proof.
  cbv zeta. split; [reflexivity |].
  intros [Hsum _]. vm_compute in Hsum. discriminate Hsum.
Qed.

Section Deadline.

Context {W : Type}.
Variable h : handler W.
Variable cfg : config.

(** C9, amended: on the POSIX path the timespec handed to
    pthread_cond_timedwait is [deadline] of the time gettimeofday
    reported.  For a start time with 0 <= tv_usec < 10^6 and any
    [unsigned int] timeout its tv_nsec lies in [0, 10^9); and when the
    seconds of the exact deadline fit in [time_t] the deadline is the
    start time plus exactly [timeout_ms] milliseconds. *)
Theorem cond_wait_timeout_deadline (cond mutex timeout_ms : Z) (m : mem) (w : W) :
  WIN32 cfg = false ->
  32 <= LONG_BITS cfg ->
  let now := fst (h _ gettimeofday w) in
  CInt.in_signed (LONG_BITS cfg) (tv_sec now) ->
  0 <= tv_usec now < 1000000 ->
  CInt.in_unsigned CInt.UINT_BITS timeout_ms ->
  let ts := deadline cfg now timeout_ms in
  (exists r : Z,
     trace (run h (cond_wait_timeout cfg cond mutex timeout_ms) m w) =
       [EvCall gettimeofday now;
        EvCall (pthread_cond_timedwait cond mutex ts) r]) /\
  0 <= ts_nsec ts < 1000000000 /\
  ((tv_sec now * 1000000000 + tv_usec now * 1000 + timeout_ms * 1000000)
     / 1000000000 <= CInt.signed_max (LONG_BITS cfg) ->
   deadline_exact cfg now timeout_ms).
Proof.
  intros Hwin Hbits now Hsec Husec Hms ts.
  unfold CInt.in_unsigned, CInt.UINT_BITS in Hms.
  destruct (deadline_nsec cfg now timeout_ms Hbits Husec ltac:(lia))
    as (Hn & Hnsec & Hsecs).
  set (n := tv_usec now * 1000 + 1000000 * (timeout_ms mod 1000)) in *.
  pose proof (Z.mod_pos_bound n 1000000000 ltac:(lia)) as Hnorm.
  split; [| split].
  - destruct (cond_wait_timeout_posix_result h cfg cond mutex timeout_ms m w Hwin)
      as (now' & r & Hnow & Htr & _).
    exists r. subst now'. exact Htr.
  - subst ts. rewrite Hnsec. exact Hnorm.
  - intros Hfit. unfold deadline_exact. cbv zeta. fold ts.
    split; [| subst ts; rewrite Hnsec; exact Hnorm].
    pose proof (long_holds_int32 _ Hbits) as Hlong.
    pose proof (Z.div_mod timeout_ms 1000 ltac:(lia)) as Hdm.
    pose proof (Z.div_mod n 1000000000 ltac:(lia)) as Hdn.
    assert (Hq : 0 <= timeout_ms / 1000) by (apply Z.div_pos; lia).
    assert (Hc : 0 <= n / 1000000000) by (apply Z.div_pos; lia).
    assert (Hexact :
      tv_sec now * 1000000000 + tv_usec now * 1000 + timeout_ms * 1000000 =
      (tv_sec now + timeout_ms / 1000) * 1000000000 + n) by (subst n; lia).
    rewrite Hexact, Z.div_add_l in Hfit by lia.
    unfold CInt.signed_max, CInt.in_signed in *.
    subst ts. rewrite Hnsec, Hsecs.
    rewrite (wrap_signed_small _ (tv_sec now + timeout_ms / 1000))
      by (unfold CInt.in_signed; lia).
    rewrite wrap_signed_small by (unfold CInt.in_signed; lia).
    lia.
Qed.

End Deadline.

(** * Concrete runs of the theorems above *)

Lemma thread_cancel_unsupported_witness :
  (WIN32 posix_nocancel = true \/ HAVE_PTHREAD_CANCEL posix_nocancel = false) /\
  thread_cancel posix_nocancel 7 = Ret (-1) /\
  forall (m : mem) (w : scripted),
    run scripted_os (thread_cancel posix_nocancel 7) m w = Outcome (-1) m w [].
Proof.
  split; [right; reflexivity |].
  apply (thread_cancel_unsupported scripted_os posix_nocancel 7).
  right; reflexivity.
Defined.

Lemma thread_alive_spec_witness :
  (0 = NULL /\ 5 <> NULL) /\
  run scripted_os (thread_alive windows 0) ∅ (os0 [WAIT_TIMEOUT]) =
    Outcome 0 ∅ (os0 [WAIT_TIMEOUT]) [] /\
  ret (run scripted_os (thread_alive windows 5) ∅ (os0 [WAIT_TIMEOUT])) = 1 /\
  ret (run scripted_os (thread_alive posix 5) ∅ (os0 [3])) = 0.
Proof.
  split; [split; [reflexivity | discriminate] |].
  split; [| split].
  - apply (thread_alive_spec scripted_os windows 0 ∅ (os0 [WAIT_TIMEOUT])).
    reflexivity.
  - destruct (thread_alive_spec scripted_os windows 5 ∅ (os0 [WAIT_TIMEOUT]))
      as [_ Halive].
    destruct (Halive ltac:(discriminate)) as (r & w' & Hh & ->).
    vm_compute in Hh. injection Hh as <- _. reflexivity.
  - destruct (thread_alive_spec scripted_os posix 5 ∅ (os0 [3]))
      as [_ Halive].
    destruct (Halive ltac:(discriminate)) as (r & w' & Hh & ->).
    vm_compute in Hh. injection Hh as <- _. reflexivity.
Defined.

Lemma thread_new_spec_witness :
  let created := run scripted_os (thread_new windows 64 1 2) ∅ (os0 [77]) in
  let refused := run scripted_os (thread_new posix 64 1 2) ∅ (os0 [EAGAIN]) in
  (WIN32 windows = true /\ WIN32 posix = false) /\
  (ret created = 0 /\ mem_after created !! 64 = Some 77) /\
  (ret refused <> 0 /\ creations (trace refused) = 1%nat).
Proof.
  intros created refused.
  split; [split; reflexivity |]. split.
  - destruct (thread_new_spec scripted_os windows 64 1 2 ∅ (os0 [77]))
      as (_ & Hwin & _).
    destruct (Hwin eq_refl) as [Hok _]. apply Hok. discriminate.
  - destruct (thread_new_spec scripted_os posix 64 1 2 ∅ (os0 [EAGAIN]))
      as (Hone & _ & Hposix).
    destruct (Hposix eq_refl) as (_ & _ & Hfail).
    split; [apply Hfail; discriminate | exact Hone].
Defined.

Lemma thread_new_win32_frame_witness :
  let failed := run scripted_os (thread_new windows 64 1 2) (<[64 := 9]> ∅)
                  (os0 [NULL]) in
  WIN32 windows = true /\
  ret failed = -1 /\ mem_after failed = <[64 := 9]> ∅ /\
  written 64 (trace failed) = false.
Proof.
  intros failed. split; [reflexivity |].
  destruct (thread_new_win32_frame scripted_os windows 64 1 2 (<[64 := 9]> ∅)
              (os0 [NULL]) eq_refl) as (_ & Hfail & _).
  destruct (Hfail eq_refl) as (Hret & Hmem & Hnone).
  split; [exact Hret |]. split; [exact Hmem | apply Hnone].
Defined.

Lemma cond_signal_spec_witness :
  let m : mem := <[16 := 81]> ∅ in
  ret (run scripted_os (cond_signal windows 16) m (os0 [0])) <> 0 /\
  ret (run scripted_os (cond_signal windows 16) m (os0 [1])) = 0.
Proof.
  intros m. split.
  - destruct (cond_signal_spec scripted_os windows 16 m (os0 [0]))
      as (r & Hh & _ & _ & Hiff & _).
    apply Hiff. vm_compute in Hh. injection Hh as <-. reflexivity.
  - destruct (cond_signal_spec scripted_os windows 16 m (os0 [1]))
      as (r & Hh & _ & _ & _ & Hok & _).
    apply Hok. vm_compute in Hh. injection Hh as <-. reflexivity.
Defined.

Lemma cond_wait_timeout_deadline_witness :
  let now := Timeval 1700000000 999999 in
  (WIN32 posix = false /\ 32 <= LONG_BITS posix) /\
  deadline posix now 1500 = Timespec 1700000002 499999000 /\
  deadline_exact posix now 1500.
Proof.
  intros now. split; [split; [reflexivity | discriminate] |].
  split; [reflexivity |].
  assert (Hsec : CInt.in_signed (LONG_BITS posix) 1700000000)
    by (vm_compute; split; [discriminate | reflexivity]).
  assert (Husec : 0 <= 999999 < 1000000) by lia.
  assert (Hms : CInt.in_unsigned CInt.UINT_BITS 1500)
    by (vm_compute; split; [discriminate | reflexivity]).
  destruct (cond_wait_timeout_deadline scripted_os posix 16 32 1500 ∅ (os0 [])
              eq_refl ltac:(discriminate) Hsec Husec Hms) as (_ & _ & Hexact).
  apply Hexact. vm_compute. discriminate.
Defined.

(** * thread_once: exactly-once execution *)

Local Open Scope nat_scope.

Lemma at_pc_insert (l : pc) (ps : list pc) (i : nat) (l0 l1 : pc) :
  ps !! i = Some l0 ->
  at_pc l (<[i := l1]> ps) + (if pc_eqb l l0 then 1 else 0) =
  at_pc l ps + (if pc_eqb l l1 then 1 else 0).
Proof.
  revert i. induction ps as [| p ps IH]; intros i Hi; [discriminate |].
  destruct i as [| i]; simpl in *.
  - injection Hi as ->. lia.
  - specialize (IH i Hi). lia.
Qed.

Lemma at_pc_lookup (l : pc) (ps : list pc) (i : nat) :
  ps !! i = Some l -> 1 <= at_pc l ps.
Proof.
  revert i. induction ps as [| p ps IH]; intros i Hi; [discriminate |].
  destruct i as [| i]; simpl in *.
  - injection Hi as ->. destruct l; simpl; lia.
  - specialize (IH i Hi). lia.
Qed.

Lemma at_pc_replicate (l l0 : pc) (K : nat) :
  at_pc l (replicate K l0) = if pc_eqb l l0 then K else 0.
Proof.
  induction K as [| K IH]; simpl; [now destruct (pc_eqb l l0) |].
  rewrite IH. destruct (pc_eqb l l0); lia.
Qed.

Lemma at_pc_all (l : pc) (ps : list pc) :
  forallb (pc_eqb l) ps = true -> at_pc l ps = length ps.
Proof.
  induction ps as [| p ps IH]; simpl; [reflexivity |].
  intros [Hp Hps]%andb_prop. rewrite Hp, (IH Hps). reflexivity.
Qed.

(** Where caller [i] goes changes the census of program points by one
    departure and one arrival. *)
Ltac census Hi l1 :=
  pose proof (at_pc_lookup _ _ _ Hi);
  pose proof (at_pc_insert L135 _ _ _ l1 Hi);
  pose proof (at_pc_insert L136 _ _ _ l1 Hi);
  pose proof (at_pc_insert L138 _ _ _ l1 Hi);
  pose proof (at_pc_insert L139 _ _ _ l1 Hi);
  pose proof (at_pc_insert L140 _ _ _ l1 Hi);
  pose proof (at_pc_insert InInit _ _ _ l1 Hi);
  pose proof (at_pc_insert L142 _ _ _ l1 Hi);
  pose proof (at_pc_insert L144 _ _ _ l1 Hi);
  pose proof (at_pc_insert L144_done _ _ _ l1 Hi);
  pose proof (at_pc_insert Returned _ _ _ l1 Hi);
  cbn [pc_eqb] in *.

(** The phase after the step is chosen by trying the four in turn. *)
Ltac phase :=
  first [ solve [left; repeat split; lia]
        | solve [right; left; repeat split; lia]
        | solve [right; right; left; repeat split; lia]
        | solve [right; right; right; repeat split; lia] ].

Ltac unfold_inv :=
  unfold inv_win, inv_posix, holders, pthread_once, goto, set_lock,
    set_state, set_once, enter_init, init_routine in *;
  cbn [lock state once counter entered returned pcs length] in *.

Ltac arrive Hinv Hi l1 :=
  census Hi l1; unfold_inv; decompose [and or] Hinv; clear Hinv;
  repeat match goal with |- _ /\ _ => split end;
  match goal with
  | |- _ \/ _ => phase
  | |- _ => lia
  end.

Ltac absurd_pc Hinv Hi :=
  exfalso; pose proof (at_pc_lookup _ _ _ Hi); unfold_inv;
  decompose [and or] Hinv; lia.

Lemma step_inv_win (cfg : config) (i : nat) (s : machine) :
  WIN32 cfg = true -> inv_win s -> inv_win (step cfg i s).
Proof.
  intros Hwin Hinv. unfold step. rewrite Hwin.
  destruct (pcs s !! i) as [l0 |] eqn:Hi; [| exact Hinv].
  destruct l0; try exact Hinv.
  - destruct (Z.eqb_spec (lock s) 0);
      [arrive Hinv Hi L138 | arrive Hinv Hi L136].
  - arrive Hinv Hi L135.
  - destruct (Z.eqb_spec (state s) 0);
      [arrive Hinv Hi L139 | arrive Hinv Hi L142].
  - arrive Hinv Hi L140.
  - arrive Hinv Hi InInit.
  - arrive Hinv Hi L142.
  - arrive Hinv Hi Returned.
  - absurd_pc Hinv Hi.
  - absurd_pc Hinv Hi.
Qed.

Lemma step_inv_posix (cfg : config) (i : nat) (s : machine) :
  WIN32 cfg = false -> inv_posix s -> inv_posix (step cfg i s).
Proof.
  intros Hwin Hinv. unfold step. rewrite Hwin.
  destruct (pcs s !! i) as [l0 |] eqn:Hi; [| exact Hinv].
  destruct l0; try exact Hinv.
  1-5, 7: absurd_pc Hinv Hi.
  - arrive Hinv Hi L144_done.
  - unfold pthread_once.
    destruct (Z.eqb_spec (once s) 0); [arrive Hinv Hi InInit |].
    destruct (Z.eqb_spec (once s) 1); [exact Hinv | arrive Hinv Hi Returned].
  - arrive Hinv Hi Returned.
Qed.

Lemma step_inv (cfg : config) (i : nat) (s : machine) :
  inv cfg s -> inv cfg (step cfg i s).
Proof.
  unfold inv. destruct (WIN32 cfg) eqn:Hwin.
  - now apply step_inv_win.
  - now apply step_inv_posix.
Qed.

Lemma exec_inv (cfg : config) (sched : list nat) (s : machine) :
  inv cfg s -> inv cfg (exec cfg sched s).
Proof.
  revert s. induction sched as [| i rest IH]; intros s Hinv; simpl.
  - exact Hinv.
  - apply IH, step_inv, Hinv.
Qed.

Lemma init_inv (cfg : config) (K : nat) : inv cfg (init cfg K).
Proof.
  unfold inv, init, entry.
  destruct (WIN32 cfg); unfold inv_win, inv_posix, holders;
    cbn [lock state once counter entered returned pcs length];
    rewrite !at_pc_replicate; cbn [pc_eqb]; lia.
Qed.

Lemma reachable_inv (cfg : config) (K : nat) (sched : list nat) :
  inv cfg (exec cfg sched (init cfg K)).
Proof. apply exec_inv, init_inv. Qed.

Lemma step_length (cfg : config) (i : nat) (s : machine) :
  length (pcs (step cfg i s)) = length (pcs s).
Proof.
  unfold step, pthread_once. destruct (pcs s !! i) as [l0 |]; [| reflexivity].
  destruct l0; try reflexivity;
    repeat match goal with
           | |- context [if ?b then _ else _] => destruct b
           end;
    try reflexivity; unfold goto; cbn [pcs]; apply length_insert.
Qed.

Lemma exec_length (cfg : config) (sched : list nat) (s : machine) :
  length (pcs (exec cfg sched s)) = length (pcs s).
Proof.
  revert s. induction sched as [| i rest IH]; intros s; simpl; [reflexivity |].
  rewrite IH. apply step_length.
Qed.

(** Once a caller has returned, the initializer has run and returned
    exactly once, on either path. *)
Lemma returned_after_init (cfg : config) (s : machine) :
  inv cfg s -> 1 <= at_pc Returned (pcs s) ->
  returned s = 1 /\ length (entered s) = 1 /\ counter s = 1%Z.
Proof.
  unfold inv. intros Hinv Hret.
  destruct (WIN32 cfg); unfold_inv; decompose [and or] Hinv;
    repeat split; lia.
Qed.

(** *** The callers can all return

    Run alone for six steps, a caller that finds the guard free gets
    through [thread_once] and leaves the guard free. *)
Lemma step_at (cfg : config) (i : nat) (l : pc) (s : machine) :
  pcs s !! i = Some l ->
  step cfg i s =
  match l with
  | L135 => goto i (if (lock s =? 0)%Z then L138 else L136) (set_lock 1 s)
  | L136 => goto i L135 s
  | L138 => goto i (if (state s =? 0)%Z then L139 else L142) s
  | L139 => goto i L140 (set_state 1 s)
  | L140 => goto i InInit (enter_init i s)
  | InInit => goto i (if WIN32 cfg then L142 else L144_done) (init_routine s)
  | L142 => goto i Returned (set_lock 0 s)
  | L144 => pthread_once i false s
  | L144_done => pthread_once i true s
  | Returned => s
  end.
Proof. intros Hi. unfold step. rewrite Hi. reflexivity. Qed.

Lemma exec_cons (cfg : config) (i : nat) (rest : list nat) (s : machine) :
  exec cfg (i :: rest) s = exec cfg rest (step cfg i s).
Proof. reflexivity. Qed.

Lemma exec_app (cfg : config) (a b : list nat) (s : machine) :
  exec cfg (a ++ b) s = exec cfg b (exec cfg a s).
Proof.
  revert s. induction a as [| i a IH]; intros s; simpl; [reflexivity |].
  apply IH.
Qed.

Ltac advance Hlt :=
  rewrite exec_cons;
  erewrite step_at
    by (unfold goto, set_lock, set_state, set_once, enter_init, init_routine;
        cbn [pcs]; first [eassumption | apply list_lookup_insert_eq; exact Hlt]);
  unfold pthread_once, goto, set_lock, set_state, set_once, enter_init,
    init_routine;
  cbn [lock state once counter entered returned pcs];
  rewrite ?list_insert_insert_eq, ?Z.eqb_refl;
  try match goal with
      | Hcfg : WIN32 _ = _ |- _ => rewrite Hcfg
      end.

Lemma lone_caller (cfg : config) (j : nat) (s : machine) :
  pcs s !! j = Some (entry cfg) -> guard_free cfg s ->
  let s' := exec cfg (replicate 6 j) s in
  guard_free cfg s' /\ pcs s' = <[j := Returned]> (pcs s).
Proof.
  unfold guard_free, entry. intros Hj Hfree.
  assert (Hlt : j < length (pcs s)) by (eapply lookup_lt_Some; exact Hj).
  destruct s as [lk st on c e r ps].
  cbn [lock once pcs replicate] in *.
  destruct (WIN32 cfg) eqn:Hwin.
  - subst lk. do 2 advance Hlt. destruct (st =? 0)%Z.
    + do 4 advance Hlt. cbn [exec lock pcs]. split; reflexivity.
    + do 4 advance Hlt. cbn [exec lock pcs]. split; reflexivity.
  - destruct Hfree as [-> | ->].
    + do 6 advance Hlt. cbn [exec once pcs]. split; [right|]; reflexivity.
    + do 6 advance Hlt. cbn [exec once pcs]. split; [right|]; reflexivity.
Qed.

Lemma sequential_from (cfg : config) (n j : nat) (s : machine) :
  guard_free cfg s ->
  (forall i : nat, j <= i < j + n -> pcs s !! i = Some (entry cfg)) ->
  let s' := exec cfg (flat_map (fun i => replicate 6 i) (seq j n)) s in
  guard_free cfg s' /\
  forall i : nat,
    (j <= i < j + n -> pcs s' !! i = Some Returned) /\
    (~ j <= i < j + n -> pcs s' !! i = pcs s !! i).
Proof.
  revert j s. induction n as [| n IH]; intros j s Hfree Hentry.
  - cbn. split; [exact Hfree |]. intros i. split; [lia | reflexivity].
  - cbn [seq flat_map]. rewrite exec_app.
    destruct (lone_caller cfg j s (Hentry j ltac:(lia)) Hfree) as [Hfree1 Hpcs1].
    set (s1 := exec cfg (replicate 6 j) s) in *.
    assert (Hlt : j < length (pcs s))
      by (eapply lookup_lt_Some; exact (Hentry j ltac:(lia))).
    destruct (IH (S j) s1 Hfree1) as [Hfree2 Hpcs2].
    { intros i Hi. rewrite Hpcs1, list_lookup_insert_ne by lia.
      apply Hentry. lia. }
    split; [exact Hfree2 |]. intros i.
    destruct (Hpcs2 i) as [Hin Hout]. split.
    + intros Hi. destruct (decide (i = j)) as [-> | Hne].
      * rewrite Hout, Hpcs1 by lia. now apply list_lookup_insert_eq.
      * apply Hin. lia.
    + intros Hi. rewrite Hout, Hpcs1 by lia.
      apply list_lookup_insert_ne. lia.
Qed.

Lemma all_returned_lookup (ps : list pc) :
  (forall i : nat, i < length ps -> ps !! i = Some Returned) ->
  forallb (pc_eqb Returned) ps = true.
Proof.
  induction ps as [| p ps IH]; intros Hall; [reflexivity |].
  cbn [forallb]. apply andb_true_intro. split.
  - specialize (Hall 0 ltac:(simpl; lia)). injection Hall as ->. reflexivity.
  - apply IH. intros i Hi. apply (Hall (S i)). simpl. lia.
Qed.

Lemma sequential_all_returned (cfg : config) (K : nat) :
  all_returned (exec cfg (sequential K) (init cfg K)) = true.
Proof.
  unfold all_returned, sequential. apply all_returned_lookup. intros i Hi.
  rewrite exec_length in Hi. unfold init in Hi. cbn [pcs] in Hi.
  rewrite length_replicate in Hi.
  destruct (sequential_from cfg K 0 (init cfg K)) as [_ Hpcs].
  - unfold guard_free, init. cbn [lock once]. destruct (WIN32 cfg); auto.
  - intros k Hk. unfold init. cbn [pcs]. apply lookup_replicate_2. lia.
  - apply (Hpcs i). lia.
Qed.

(** C3: K callers race [thread_once] on a fresh guard, with the initializer
    that increments the counter, under any schedule.  At every point of
    the execution a caller that has returned finds the initializer already
    returned, and it has run exactly once.  In particular, for K >= 1,
    when all K callers have returned the counter is 1.  And the K callers
    can all return: run one after the other, they do. *)
Theorem thread_once_exactly_once (cfg : config) (K : nat) (sched : list nat) :
  let s := exec cfg sched (init cfg K) in
  (forall i : nat, pcs s !! i = Some Returned ->
     returned s = 1 /\ length (entered s) = 1 /\ counter s = 1%Z) /\
  (1 <= K -> all_returned s = true ->
     counter s = 1%Z /\ length (entered s) = 1 /\ returned s = 1) /\
  all_returned (exec cfg (sequential K) (init cfg K)) = true.
Proof.
  intros s. pose proof (reachable_inv cfg K sched) as Hinv. fold s in Hinv.
  split; [| split; [| apply sequential_all_returned]].
  - intros i Hi. apply (returned_after_init cfg s Hinv).
    exact (at_pc_lookup _ _ _ Hi).
  - intros HK Hall.
    assert (Hcount : at_pc Returned (pcs s) = K).
    { rewrite (at_pc_all _ _ Hall). unfold s. rewrite exec_length.
      unfold init. cbn [pcs]. apply length_replicate. }
    destruct (returned_after_init cfg s Hinv) as (? & ? & ?); [lia |].
    auto.
Qed.

(** C4: the Windows path, K callers, any schedule, at every point of the
    execution.  (1) A caller that reads [state] at line 138 and finds it
    set, and likewise anyone who finds it set while the lock is free,
    finds the initializer already returned.  (2) At most one caller has
    ever entered the initializer, and at most one is calling or running
    it.  (3) A caller at line 135 that finds the lock held goes to
    Sleep(1) and from there back to line 135, which leaves the whole
    machine as it was; it gets past line 135 only when it finds the lock
    free, and takes it in the same step. *)
Theorem thread_once_fallback_correct (cfg : config) (K : nat) (sched : list nat) :
  WIN32 cfg = true ->
  let s := exec cfg sched (init cfg K) in
  ((forall i : nat, pcs s !! i = Some L138 -> state s <> 0%Z -> returned s = 1) /\
   (lock s = 0%Z -> state s <> 0%Z -> returned s = 1)) /\
  (length (entered s) <= 1 /\ at_pc L140 (pcs s) + at_pc InInit (pcs s) <= 1) /\
  (forall i : nat, pcs s !! i = Some L135 ->
     (lock s <> 0%Z ->
        step cfg i s = goto i L136 s /\ step cfg i (step cfg i s) = s) /\
     (lock s = 0%Z -> step cfg i s = goto i L138 (set_lock 1 s))).
Proof.
  intros Hwin s. pose proof (reachable_inv cfg K sched) as Hinv. fold s in Hinv.
  unfold inv in Hinv. rewrite Hwin in Hinv.
  assert (Hlock01 : lock s = 0%Z \/ lock s = 1%Z)
    by (unfold_inv; decompose [and or] Hinv; lia).
  split; [| split].
  - split.
    + intros i Hi Hstate. pose proof (at_pc_lookup _ _ _ Hi).
      unfold_inv. decompose [and or] Hinv; lia.
    + intros Hfree Hstate. unfold_inv. decompose [and or] Hinv; lia.
  - unfold_inv. decompose [and or] Hinv; split; lia.
  - intros i Hi. split.
    + intros Hheld.
      assert (Hlock : lock s = 1%Z) by lia.
      assert (Hstep : step cfg i s = goto i L136 s).
      { unfold step. rewrite Hi, Hlock. simpl.
        unfold goto, set_lock. cbn [lock state once counter entered returned pcs].
        rewrite <- Hlock. reflexivity. }
      split; [exact Hstep |].
      rewrite Hstep. unfold step, goto.
      cbn [lock state once counter entered returned pcs].
      rewrite list_lookup_insert_eq by (eapply lookup_lt_Some; exact Hi).
      cbn [lock state once counter entered returned pcs].
      rewrite list_insert_insert_eq, (list_insert_id _ _ _ Hi).
      now destruct s.
    + intros Hfree. unfold step. rewrite Hi, Hfree. reflexivity.
Qed.

(** The field [state] itself is written before the initializer is called
    (line 139 precedes line 140): while the initializer runs the field is
    already 1.  The lock is held throughout, so no caller of [thread_once]
    reads the field then; a second caller is kept at lines 135-136. *)
Lemma state_set_while_initializer_runs :
  let s := exec windows [0; 0; 0; 0; 1; 1; 1]%nat (init windows 2) in
  state s = 1%Z /\ lock s = 1%Z /\ returned s = 0 /\
  pcs s = [InInit; L136].
Proof. vm_compute. repeat split. Qed.

Lemma thread_once_exactly_once_witness :
  let s := exec windows [0; 1; 0; 1; 0; 0; 1; 0; 0; 1; 1; 1; 1]%nat
             (init windows 2) in
  (1 <= 2 /\ all_returned s = true) /\
  counter s = 1%Z /\ length (entered s) = 1 /\ returned s = 1.
Proof.
  intros s. split; [split; [lia | reflexivity] |].
  destruct (thread_once_exactly_once windows 2
              [0; 1; 0; 1; 0; 0; 1; 0; 0; 1; 1; 1; 1]%nat) as (_ & Hall & _).
  apply Hall; [lia | reflexivity].
Defined.

Lemma thread_once_fallback_correct_witness :
  let s := exec windows [0; 0; 0; 0; 1; 1; 1; 1]%nat (init windows 2) in
  (WIN32 windows = true /\ pcs s !! 1%nat = Some L135 /\ lock s <> 0%Z) /\
  step windows 1 s = goto 1 L136 s /\ step windows 1 (step windows 1 s) = s.
Proof.
  intros s. split; [split; [reflexivity | split; [reflexivity | discriminate]] |].
  destruct (thread_once_fallback_correct windows 2
              [0; 0; 0; 0; 1; 1; 1; 1]%nat eq_refl) as (_ & _ & Hspin).
  apply (Hspin 1%nat); [reflexivity | discriminate].
Defined.

(** * Further properties of the facade *)

Section ThreadLifecycle.

Local Open Scope Z_scope.

Context {W : Type}.
Variable h : handler W.
Variable cfg : config.

Lemma to_int_dword (r : Z) :
  0 <= r < 2 ^ 32 ->
  CInt.to_int r = if r <? 2 ^ 31 then r else r - 2 ^ 32.
Proof.
  intros Hr. unfold CInt.to_int, CInt.wrap_signed.
  change (32 - 1) with 31.
  destruct (Z.ltb_spec r (2 ^ 31)) as [Hlow | Hhigh].
  - rewrite Z.mod_small; lia.
  - replace (r + 2 ^ 31) with (r - 2 ^ 31 + 1 * 2 ^ 32) by lia.
    rewrite Z_mod_plus_full, Z.mod_small; lia.
Qed.

(** X1: [thread_join] makes one call, the wait for the thread, and leaves
    memory alone.  On POSIX its result is what pthread_join answered.  On
    Windows the DWORD answer is cast to [int]: the result is 0 exactly for
    WAIT_OBJECT_0, WAIT_FAILED comes out as -1, and every answer below
    2^31 comes out unchanged, so no failure of the wait is reported as
    success. *)
Theorem thread_join_status (thread : Z) (m : mem) (w : W) :
  let o := run h (thread_join cfg thread) m w in
  let wait :=
    if WIN32 cfg then WaitForSingleObject thread INFINITE
    else pthread_join thread in
  exists r : Z,
    h Z wait w = (r, os_after o) /\
    trace o = [EvCall wait r] /\
    mem_after o = m /\
    (WIN32 cfg = false -> ret o = r) /\
    (WIN32 cfg = true -> 0 <= r < 2 ^ 32 ->
       (ret o = 0 <-> r = WAIT_OBJECT_0) /\
       (r = WAIT_FAILED -> ret o = -1) /\
       (r < 2 ^ 31 -> ret o = r)).
Proof.
  intros o wait. subst o wait. unfold thread_join.
  destruct (WIN32 cfg); simpl.
  - destruct (h Z (WaitForSingleObject thread INFINITE) w) as [r w'] eqn:Hh.
    exists r. simpl. repeat split; try discriminate.
    all: rewrite (to_int_dword r) by assumption;
      unfold WAIT_OBJECT_0, WAIT_FAILED in *;
      destruct (Z.ltb_spec r (2 ^ 31)); lia.
  - destruct (h Z (pthread_join thread) w) as [r w'] eqn:Hh.
    exists r. simpl. repeat split; try discriminate.
Qed.

(** X2: the two ways to give a thread handle back.  Detach followed by
    free closes the handle twice on Windows (both functions call
    CloseHandle on it) and detaches once, and nothing else, on POSIX.
    Join followed by free waits and then closes the handle once on
    Windows, and only joins on POSIX, returning the join's status. *)
Theorem thread_reclaim_traces (thread : Z) (m : mem) (w : W) :
  let detached :=
    run h (thread_detach cfg thread ;; thread_free cfg thread) m w in
  let joined :=
    run h (let* r := thread_join cfg thread in
           thread_free cfg thread ;; Ret r) m w in
  (WIN32 cfg = true ->
     (exists a b : Z,
        trace detached = [EvCall (CloseHandle thread) a;
                          EvCall (CloseHandle thread) b]) /\
     (exists r c : Z,
        trace joined = [EvCall (WaitForSingleObject thread INFINITE) r;
                        EvCall (CloseHandle thread) c] /\
        ret joined = CInt.to_int r)) /\
  (WIN32 cfg = false ->
     (exists a : Z, trace detached = [EvCall (pthread_detach thread) a]) /\
     (exists r : Z,
        trace joined = [EvCall (pthread_join thread) r] /\ ret joined = r)).
Proof.
  intros detached joined. subst detached joined.
  unfold thread_detach, thread_free, thread_join.
  destruct (WIN32 cfg); simpl.
  - split; [| discriminate]. intros _.
    destruct (h Z (CloseHandle thread) w) as [a w1] eqn:H1; simpl.
    destruct (h Z (CloseHandle thread) w1) as [b w2] eqn:H2; simpl.
    destruct (h Z (WaitForSingleObject thread INFINITE) w) as [r w3] eqn:H3.
    simpl. destruct (h Z (CloseHandle thread) w3) as [c w4] eqn:H4; simpl.
    split; [exists a, b | exists r, c]; repeat split.
  - split; [discriminate |]. intros _.
    destruct (h Z (pthread_detach thread) w) as [a w1] eqn:H1; simpl.
    destruct (h Z (pthread_join thread) w) as [r w3] eqn:H3; simpl.
    split; [exists a | exists r]; repeat split.
Qed.

(** X9: [thread_cancel] reaches the OS if and only if the build is POSIX
    with HAVE_PTHREAD_CANCEL; there it makes the one call pthread_cancel
    and returns its answer unchanged.  It never writes memory. *)
Theorem thread_cancel_calls_os_iff_supported (thread : Z) (m : mem) (w : W) :
  let o := run h (thread_cancel cfg thread) m w in
  (trace o <> [] <-> WIN32 cfg = false /\ HAVE_PTHREAD_CANCEL cfg = true) /\
  (WIN32 cfg = false -> HAVE_PTHREAD_CANCEL cfg = true ->
     exists r : Z,
       h Z (pthread_cancel thread) w = (r, os_after o) /\
       trace o = [EvCall (pthread_cancel thread) r] /\ ret o = r) /\
  mem_after o = m.
Proof.
  intros o. subst o. unfold thread_cancel.
  destruct (WIN32 cfg), (HAVE_PTHREAD_CANCEL cfg); simpl;
    try (repeat split; try discriminate; try tauto;
         intros [? ?]; discriminate).
  destruct (h Z (pthread_cancel thread) w) as [r w'] eqn:Hh. simpl.
  repeat split; try discriminate. intros _ _. exists r. repeat split.
Qed.

(** X10: thread creation followed by the liveness probe, on Windows, with
    [*thread] null beforehand.  If [thread_new] returned 0, [*thread] is
    the handle CreateThread answered and [thread_alive] on it does probe
    the OS.  If [thread_new] failed, [*thread] is still null and
    [thread_alive] returns 0 without any call. *)
Theorem thread_new_then_alive_win32
    (thread thread_func data : Z) (m : mem) (w : W) :
  WIN32 cfg = true -> read m thread = NULL ->
  let created := run h (thread_new cfg thread thread_func data) m w in
  let handle := read (mem_after created) thread in
  let probed :=
    run h (thread_alive cfg handle) (mem_after created) (os_after created) in
  (ret created = 0 ->
     handle = fst (h Z (CreateThread thread_func data) w) /\
     handle <> NULL /\
     exists r : Z, trace probed = [EvCall (WaitForSingleObject handle 0) r]) /\
  (ret created <> 0 ->
     handle = NULL /\ trace probed = [] /\ ret probed = 0).
Proof.
  intros Hwin Hnull created handle probed. subst probed handle created.
  unfold thread_new, thread_alive. rewrite Hwin. simpl.
  destruct (h Z (CreateThread thread_func data) w) as [th w'] eqn:Hh; simpl.
  destruct (Z.eqb_spec th NULL) as [-> | Hth]; simpl.
  - split; [discriminate |]. intros _. rewrite Hnull. simpl. repeat split.
  - split; [| congruence]. intros _.
    assert (Hstored : (<[thread := th]> m : mem) !! thread = Some th)
      by apply lookup_insert_eq.
    assert (Hread : read (<[thread := th]> m) thread = th)
      by (unfold read; now rewrite Hstored).
    rewrite Hread. split; [reflexivity |]. split; [exact Hth |].
    apply Z.eqb_neq in Hth. unfold NULL in Hth. rewrite Hth. simpl.
    destruct (h Z (WaitForSingleObject th 0) w') as [r w2]. simpl.
    exists r. reflexivity.
Qed.

End ThreadLifecycle.

Section ConditionVariableUse.

Local Open Scope Z_scope.

Context {W : Type}.
Variable h : handler W.
Variable cfg : config.

Lemma read_stored (m : mem) (addr v : Z) : read (<[addr := v]> m) addr = v.
Proof.
  assert (Hstored : (<[addr := v]> m : mem) !! addr = Some v)
    by apply lookup_insert_eq.
  unfold read. now rewrite Hstored.
Qed.

(** X3: on Windows the semaphore that [cond_init] creates (initial count
    0, at most 32767 permits) is the one every later operation on the
    condition variable uses: after [cond_init], [cond->sem] holds the
    handle CreateSemaphore answered, and [cond_signal], [cond_wait_timeout]
    and [cond_destroy] release, wait on and close exactly that handle.
    The answer of CreateSemaphore is not checked: a null handle is stored
    and used like any other. *)
Theorem cond_init_then_use_win32 (cond mutex timeout_ms : Z) (m : mem) (w : W) :
  WIN32 cfg = true ->
  let sem := fst (h Z (CreateSemaphore 0 32767) w) in
  let made := run h (cond_init cfg cond) m w in
  let after (A : Type) (p : prog A) :=
    trace (run h p (mem_after made) (os_after made)) in
  trace made = [EvCall (CreateSemaphore 0 32767) sem; EvStore cond sem] /\
  read (mem_after made) cond = sem /\
  (exists ok : Z,
     after Z (cond_signal cfg cond) = [EvCall (ReleaseSemaphore sem 1) ok]) /\
  (exists r : Z,
     after Z (cond_wait_timeout cfg cond mutex timeout_ms) =
       [EvCall (LeaveCriticalSection mutex) tt;
        EvCall (WaitForSingleObject sem timeout_ms) r]) /\
  (exists c : Z,
     after unit (cond_destroy cfg cond) = [EvCall (CloseHandle sem) c]).
Proof.
  intros Hwin sem made after. subst after made sem.
  unfold cond_init, cond_signal, cond_wait_timeout, cond_destroy, mutex_unlock.
  rewrite Hwin. simpl.
  destruct (h Z (CreateSemaphore 0 32767) w) as [sem w1] eqn:Hh; simpl.
  rewrite !read_stored.
  split; [reflexivity |]. split; [reflexivity |]. split; [| split].
  - destruct (h Z (ReleaseSemaphore sem 1) w1) as [ok w2]. exists ok.
    simpl. now destruct (ok =? 0).
  - destruct (h unit (LeaveCriticalSection mutex) w1) as [[] w2]. simpl.
    destruct (h Z (WaitForSingleObject sem timeout_ms) w2) as [r w3].
    exists r. simpl.
    now destruct ((r =? WAIT_OBJECT_0) || (r =? WAIT_TIMEOUT)).
  - destruct (h Z (CloseHandle sem) w1) as [c w2]. exists c. reflexivity.
Qed.

(** X4: on Windows the timeout is handed to WaitForSingleObject as it is,
    so the largest [unsigned int], which is the value of INFINITE, means
    no timeout.  [cond_wait_timeout] with that timeout makes the same
    calls as [cond_wait] and leaves the same OS state; the results agree
    unless the wait answers WAIT_TIMEOUT, which [cond_wait_timeout]
    returns as 0 and [cond_wait] as -1. *)
Theorem cond_wait_timeout_uint_max_win32 (cond mutex : Z) (m : mem) (w : W) :
  WIN32 cfg = true ->
  let timed := run h (cond_wait_timeout cfg cond mutex CInt.UINT_MAX) m w in
  let plain := run h (cond_wait cfg cond mutex) m w in
  trace timed = trace plain /\
  os_after timed = os_after plain /\
  exists r : Z,
    last (trace plain) =
      Some (EvCall (WaitForSingleObject (read m cond) INFINITE) r) /\
    (r <> WAIT_TIMEOUT -> ret timed = ret plain) /\
    (r = WAIT_TIMEOUT -> ret timed = 0 /\ ret plain = -1).
Proof.
  intros Hwin timed plain. subst timed plain.
  unfold cond_wait_timeout, cond_wait, mutex_unlock. rewrite Hwin.
  change CInt.UINT_MAX with INFINITE. simpl.
  destruct (h unit (LeaveCriticalSection mutex) w) as [[] w1]. simpl.
  destruct (h Z (WaitForSingleObject (read m cond) INFINITE) w1) as [r w2].
  simpl.
  destruct (Z.eqb_spec r WAIT_OBJECT_0) as [Hobj | Hobj],
           (Z.eqb_spec r WAIT_TIMEOUT) as [Heq | Hne]; simpl.
  - rewrite Hobj in Heq. discriminate Heq.
  - repeat split. exists r. repeat split; congruence.
  - repeat split. exists r. repeat split; congruence.
  - repeat split. exists r. repeat split; congruence.
Qed.

(** X15: the usual pattern, lock, wait, unlock.  On POSIX it is one lock,
    the wait and one unlock.  On Windows the critical section is entered
    once and left twice: [cond_wait] leaves it and does not enter it
    again, and the caller's [mutex_unlock] leaves it once more. *)
Theorem lock_wait_unlock_trace (cond mutex : Z) (m : mem) (w : W) :
  let o :=
    run h (mutex_lock cfg mutex ;;
           let* r := cond_wait cfg cond mutex in
           mutex_unlock cfg mutex ;; Ret r) m w in
  (WIN32 cfg = true ->
     exists r : Z,
       trace o = [EvCall (EnterCriticalSection mutex) tt;
                  EvCall (LeaveCriticalSection mutex) tt;
                  EvCall (WaitForSingleObject (read m cond) INFINITE) r;
                  EvCall (LeaveCriticalSection mutex) tt]) /\
  (WIN32 cfg = false ->
     exists a r b : Z,
       trace o = [EvCall (pthread_mutex_lock mutex) a;
                  EvCall (pthread_cond_wait cond mutex) r;
                  EvCall (pthread_mutex_unlock mutex) b] /\
       ret o = r).
Proof.
  intros o. subst o. unfold mutex_lock, cond_wait, mutex_unlock.
  destruct (WIN32 cfg); simpl.
  - split; [| discriminate]. intros _.
    destruct (h unit (EnterCriticalSection mutex) w) as [[] w1]. simpl.
    destruct (h unit (LeaveCriticalSection mutex) w1) as [[] w2]. simpl.
    destruct (h Z (WaitForSingleObject (read m cond) INFINITE) w2) as [r w3].
    simpl. exists r.
    destruct (r =? WAIT_OBJECT_0); simpl;
      destruct (h unit (LeaveCriticalSection mutex) w3) as [[] w4];
      reflexivity.
  - split; [discriminate |]. intros _.
    destruct (h Z (pthread_mutex_lock mutex) w) as [a w1]. simpl.
    destruct (h Z (pthread_cond_wait cond mutex) w1) as [r w2]. simpl.
    destruct (h Z (pthread_mutex_unlock mutex) w2) as [b w3]. simpl.
    exists a, r, b. split; reflexivity.
Qed.

End ConditionVariableUse.

Section WhateverTheOsAnswers.

Local Open Scope Z_scope.


Lemma results_run {W A : Type} (h : handler W) (P : A -> Prop) (p : prog A)
    (m : mem) (w : W) :
  results P p -> P (ret (run h p m w)).
Proof.
  revert m w. induction p as [a | X c k IH | addr v k IH | addr k IH];
    intros m w Hres; simpl in *.
  - exact Hres.
  - destruct (h X c w) as [x w']. simpl. apply IH, Hres.
  - apply IH, Hres.
  - apply IH, Hres.
Qed.

Ltac all_paths :=
  cbv [thread_detach thread_free thread_join thread_alive thread_cancel
       thread_new mutex_init mutex_destroy mutex_lock mutex_unlock cond_init
       cond_destroy cond_signal cond_wait cond_wait_timeout call load store];
  repeat match goal with
         | |- context [if ?b then _ else _] => destruct b
         end;
  cbn [bind store_free results]; intros;
  repeat match goal with
         | |- context [if ?b then _ else _] => destruct b
         | |- context [let (_, _) := ?x in _] => destruct x
         | |- context [match ?x with Some _ => _ | None => _ end] => destruct x
         end;
  cbn [bind store_free results]; auto.


(** X11: the values the facade can return, whatever the OS answers.
    [thread_alive] returns 0 or 1 on every build.  On Windows every status
    is 0 or -1: the OS's own status codes are never handed to the
    caller by [thread_new], [thread_cancel], [cond_signal], [cond_wait]
    and [cond_wait_timeout]. *)
Theorem facade_status_values {W : Type} (h : handler W) (cfg : config)
    (thread thread_func data mutex cond timeout_ms : Z) (m : mem) (w : W) :
  let bit (r : Z) := r = 0 \/ r = 1 in
  let status (r : Z) := r = 0 \/ r = -1 in
  bit (ret (run h (thread_alive cfg thread) m w)) /\
  (WIN32 cfg = true ->
     status (ret (run h (thread_new cfg thread thread_func data) m w)) /\
     status (ret (run h (thread_cancel cfg thread) m w)) /\
     status (ret (run h (cond_signal cfg cond) m w)) /\
     status (ret (run h (cond_wait cfg cond mutex) m w)) /\
     status (ret (run h (cond_wait_timeout cfg cond mutex timeout_ms) m w))).
Proof.
  intros bit status. split.
  - apply results_run. subst bit. all_paths;
      match goal with |- context [Z.b2z ?b] => destruct b end; simpl; auto.
  - intros Hwin. subst status.
    repeat split; apply results_run;
      unfold thread_new, thread_cancel, cond_signal, cond_wait,
        cond_wait_timeout, mutex_unlock; rewrite Hwin; all_paths.
Qed.

End WhateverTheOsAnswers.

(** * Further properties of the deadline *)

Section DeadlineArithmetic.

Local Open Scope Z_scope.

Variable cfg : config.
Hypothesis long_bits : 32 <= LONG_BITS cfg.

Lemma wrap_signed_range (bits x : Z) :
  1 <= bits -> CInt.in_signed bits (CInt.wrap_signed bits x).
Proof.
  intros Hbits. unfold CInt.in_signed, CInt.wrap_signed.
  assert (H2 : 2 ^ bits = 2 * 2 ^ (bits - 1)).
  { replace bits with (Z.succ (bits - 1)) at 1 by lia.
    apply Z.pow_succ_r. lia. }
  assert (Hpos : 0 < 2 ^ (bits - 1)) by (apply Z.pow_pos_nonneg; lia).
  pose proof (Z.mod_pos_bound (x + 2 ^ (bits - 1)) (2 ^ bits) ltac:(lia)).
  lia.
Qed.

Lemma deadline_fits_exact (now : timeval) (timeout_ms : Z) :
  CInt.in_signed (LONG_BITS cfg) (tv_sec now) ->
  0 <= tv_usec now < 1000000 ->
  CInt.in_unsigned CInt.UINT_BITS timeout_ms ->
  exact_seconds now timeout_ms <= CInt.signed_max (LONG_BITS cfg) ->
  deadline_exact cfg now timeout_ms.
Proof.
  intros Hsec Husec Hms Hfit. unfold exact_seconds in Hfit.
  unfold CInt.in_unsigned, CInt.UINT_BITS in Hms.
  destruct (deadline_nsec cfg now timeout_ms long_bits Husec ltac:(lia))
    as (Hn & Hnsec & Hsecs).
  set (n := tv_usec now * 1000 + 1000000 * (timeout_ms mod 1000)) in *.
  pose proof (Z.mod_pos_bound n 1000000000 ltac:(lia)) as Hnorm.
  pose proof (long_holds_int32 _ long_bits) as Hlong.
  pose proof (Z.div_mod timeout_ms 1000 ltac:(lia)) as Hdm.
  pose proof (Z.div_mod n 1000000000 ltac:(lia)) as Hdn.
  assert (Hq : 0 <= timeout_ms / 1000) by (apply Z.div_pos; lia).
  assert (Hc : 0 <= n / 1000000000) by (apply Z.div_pos; lia).
  assert (Hexact :
    tv_sec now * 1000000000 + tv_usec now * 1000 + timeout_ms * 1000000 =
    (tv_sec now + timeout_ms / 1000) * 1000000000 + n) by (subst n; lia).
  rewrite Hexact, Z.div_add_l in Hfit by lia.
  unfold CInt.signed_max, CInt.in_signed in *.
  unfold deadline_exact. cbv zeta. rewrite Hnsec, Hsecs.
  rewrite (wrap_signed_small _ (tv_sec now + timeout_ms / 1000))
    by (unfold CInt.in_signed; lia).
  rewrite wrap_signed_small by (unfold CInt.in_signed; lia).
  split; lia.
Qed.

(** X5: a timeout of 0.  The deadline is the start time itself, in
    nanoseconds, for every start time a [time_t] can hold: with no time to
    add nothing overflows, not even at the last representable second. *)
Theorem deadline_zero_timeout (now : timeval) :
  CInt.in_signed (LONG_BITS cfg) (tv_sec now) ->
  0 <= tv_usec now < 1000000 ->
  deadline cfg now 0 = Timespec (tv_sec now) (tv_usec now * 1000).
Proof.
  intros Hsec Husec.
  destruct (deadline_nsec cfg now 0 long_bits Husec ltac:(lia))
    as (Hn & Hnsec & Hsecs).
  cbv zeta in Hn, Hnsec, Hsecs.
  assert (Hn0 : tv_usec now * 1000 + 1000000 * (0 mod 1000)
                = tv_usec now * 1000) by (rewrite Z.mod_0_l; lia).
  rewrite Hn0 in Hn, Hnsec, Hsecs.
  rewrite Z.mod_small in Hnsec by lia.
  rewrite (Z.div_small (tv_usec now * 1000)) in Hsecs by lia.
  rewrite Z.div_0_l, !Z.add_0_r in Hsecs by lia.
  do 2 rewrite (wrap_signed_small _ (tv_sec now)) in Hsecs
    by (assumption || lia).
  destruct (deadline cfg now 0) as [s n]. simpl in *. congruence.
Qed.

(** X6: for a start time with 0 <= tv_usec < 10^6 and an [unsigned int]
    timeout, the deadline is the start time plus exactly the timeout if
    and only if the seconds of that exact deadline fit in [time_t].  So
    the deadline is wrong exactly when [tv_sec] overflows. *)
Theorem deadline_exact_iff_representable (now : timeval) (timeout_ms : Z) :
  CInt.in_signed (LONG_BITS cfg) (tv_sec now) ->
  0 <= tv_usec now < 1000000 ->
  CInt.in_unsigned CInt.UINT_BITS timeout_ms ->
  deadline_exact cfg now timeout_ms <->
  exact_seconds now timeout_ms <= CInt.signed_max (LONG_BITS cfg).
Proof.
  intros Hsec Husec Hms. split; [| now apply deadline_fits_exact].
  intros [Hsum Hnorm]. unfold exact_seconds.
  rewrite <- Hsum, Z.div_add_l, (Z.div_small _ _ Hnorm), Z.add_0_r by lia.
  unfold deadline. cbn [ts_sec].
  pose proof (wrap_signed_range (LONG_BITS cfg)
    (CInt.wrap_signed (LONG_BITS cfg) (tv_sec now + Z.quot timeout_ms 1000)
     + Z.quot
         (CInt.wrap_signed (LONG_BITS cfg)
            (CInt.wrap_signed (LONG_BITS cfg) (tv_usec now * 1000)
             + CInt.wrap_unsigned CInt.UINT_BITS
                 (1000 * 1000 * Z.rem timeout_ms 1000)))
         (1000 * 1000 * 1000)) ltac:(lia)) as Hrange.
  unfold CInt.in_signed, CInt.signed_max in *. lia.
Qed.

(** X7: while nothing overflows, the deadline is never before the start
    time and never moves back when the timeout grows: for timeouts
    t1 <= t2 whose deadlines fit, the deadline for t1 is not later than
    the one for t2. *)
Theorem deadline_monotone (now : timeval) (t1 t2 : Z) :
  CInt.in_signed (LONG_BITS cfg) (tv_sec now) ->
  0 <= tv_usec now < 1000000 ->
  CInt.in_unsigned CInt.UINT_BITS t1 ->
  CInt.in_unsigned CInt.UINT_BITS t2 ->
  t1 <= t2 ->
  exact_seconds now t2 <= CInt.signed_max (LONG_BITS cfg) ->
  let ns (ts : timespec) := ts_sec ts * 1000000000 + ts_nsec ts in
  tv_sec now * 1000000000 + tv_usec now * 1000 <= ns (deadline cfg now t1) /\
  ns (deadline cfg now t1) <= ns (deadline cfg now t2).
Proof.
  intros Hsec Husec Ht1 Ht2 Hle Hfit2 ns.
  assert (Hfit1 : exact_seconds now t1 <= CInt.signed_max (LONG_BITS cfg)).
  { etransitivity; [| exact Hfit2]. unfold exact_seconds.
    apply Z.div_le_mono; lia. }
  destruct (deadline_fits_exact now t1 Hsec Husec Ht1 Hfit1) as [H1 _].
  destruct (deadline_fits_exact now t2 Hsec Husec Ht2 Hfit2) as [H2 _].
  unfold CInt.in_unsigned in Ht1. subst ns. cbv beta. lia.
Qed.

End DeadlineArithmetic.

(** * Further properties of thread_once *)

Lemma at_pc_pos (l : pc) (ps : list pc) :
  1 <= at_pc l ps -> exists i : nat, ps !! i = Some l.
Proof.
  induction ps as [| p ps IH]; simpl; [lia |].
  destruct (pc_eqb l p) eqn:Hp.
  - intros _. exists 0. destruct l, p; try discriminate; reflexivity.
  - intros Hrest. destruct (IH ltac:(lia)) as [i Hi]. now exists (S i).
Qed.

Lemma held_lookup (ps : list pc) (i : nat) (l : pc) :
  ps !! i = Some l -> holder_pc l = true -> 1 <= held ps.
Proof.
  intros Hi Hl. pose proof (at_pc_lookup _ _ _ Hi).
  unfold held, holders. destruct l; try discriminate Hl; lia.
Qed.

(** Two callers inside the guarded region make the count at least two. *)
Lemma held_twice (ps : list pc) (i j : nat) (l l' : pc) :
  ps !! i = Some l -> ps !! j = Some l' -> i <> j ->
  holder_pc l = true -> holder_pc l' = true -> 2 <= held ps.
Proof.
  intros Hi Hj Hne Hl Hl'.
  assert (Hj' : <[i := Returned]> ps !! j = Some l')
    by (rewrite list_lookup_insert_ne; assumption).
  pose proof (held_lookup _ _ _ Hj' Hl') as Hrest.
  census Hi Returned. unfold held, holders in *.
  destruct l; try discriminate Hl; cbn [pc_eqb] in *; lia.
Qed.

Lemma inv_held (cfg : config) (s : machine) :
  inv cfg s -> held (pcs s) <= 1.
Proof.
  unfold inv, held. intros Hinv.
  destruct (WIN32 cfg); unfold_inv; decompose [and or] Hinv; lia.
Qed.

(** X12: mutual exclusion, on both paths, for K callers under any
    schedule and at every point of the execution: no two callers are
    inside the guarded region at once.  On Windows the lock field is
    always 0 or 1, and it is 1 exactly while some caller is between the
    exchange of line 135 and the release of line 142. *)
Theorem thread_once_mutual_exclusion (cfg : config) (K : nat) (sched : list nat) :
  let s := exec cfg sched (init cfg K) in
  (forall (i j : nat) (l l' : pc),
     pcs s !! i = Some l -> pcs s !! j = Some l' ->
     holder_pc l = true -> holder_pc l' = true -> i = j) /\
  (WIN32 cfg = true ->
     (lock s = 0%Z \/ lock s = 1%Z) /\
     (lock s = 1%Z <->
      exists (i : nat) (l : pc), pcs s !! i = Some l /\ holder_pc l = true)).
Proof.
  intros s. pose proof (reachable_inv cfg K sched) as Hinv. fold s in Hinv.
  split.
  - intros i j l l' Hi Hj Hl Hl'.
    destruct (decide (i = j)) as [Heq | Hne]; [exact Heq | exfalso].
    pose proof (held_twice _ _ _ _ _ Hi Hj Hne Hl Hl').
    pose proof (inv_held cfg s Hinv). lia.
  - intros Hwin. unfold inv in Hinv. rewrite Hwin in Hinv.
    assert (Hlock : lock s = Z.of_nat (holders (pcs s)) /\ holders (pcs s) <= 1
                    /\ at_pc L144_done (pcs s) = 0)
      by (unfold_inv; decompose [and or] Hinv; lia).
    destruct Hlock as (Hlock & Hle & Hposix).
    split; [lia |]. split.
    + intros Hone.
      assert (Hsome : 1 <= at_pc L138 (pcs s) \/ 1 <= at_pc L139 (pcs s) \/
                      1 <= at_pc L140 (pcs s) \/ 1 <= at_pc InInit (pcs s) \/
                      1 <= at_pc L142 (pcs s))
        by (unfold holders in *; lia).
      destruct Hsome as [H | [H | [H | [H | H]]]];
        destruct (at_pc_pos _ _ H) as [i Hi]; eexists i, _;
        (split; [exact Hi | reflexivity]).
    + intros (i & l & Hi & Hl). pose proof (held_lookup _ _ _ Hi Hl).
      unfold held in *. lia.
Qed.

Lemma step_history (cfg : config) (i : nat) (s : machine) :
  let s' := step cfg i s in
  returned s <= returned s' /\
  (exists more : list nat, entered s' = more ++ entered s) /\
  (state s = 1%Z -> state s' = 1%Z).
Proof.
  unfold step, pthread_once.
  destruct (pcs s !! i) as [l |]; [destruct l |]; cbv zeta;
    repeat match goal with
           | |- context [if ?b then _ else _] => destruct b
           end;
    cbn [goto set_lock set_state set_once enter_init init_routine returned
         entered state];
    (split; [lia | split; [| tauto]]);
    first [now exists [] | now exists [i]].
Qed.

Lemma exec_history (cfg : config) (sched : list nat) (s : machine) :
  let s' := exec cfg sched s in
  returned s <= returned s' /\
  (exists more : list nat, entered s' = more ++ entered s) /\
  (state s = 1%Z -> state s' = 1%Z).
Proof.
  revert s. induction sched as [| i rest IH]; intros s; cbn [exec].
  - split; [lia | split; [now exists [] | tauto]].
  - destruct (step_history cfg i s) as (Hr & [m1 He] & Hs).
    destruct (IH (step cfg i s)) as (Hr' & [m2 He'] & Hs').
    split; [lia | split; [| tauto]].
    exists (m2 ++ m1). rewrite He', He. now rewrite app_assoc.
Qed.

(** X13: what has happened stays.  Take any point of an execution at which
    the initializer has returned and let the callers go on in any way:
    the initializer has still returned exactly once, the counter is still
    1 and the one caller that ran it is still the only one on record.  On
    Windows a [state] of 1 is never taken back. *)
Theorem thread_once_is_permanent (cfg : config) (K : nat) (sched more : list nat) :
  let s := exec cfg sched (init cfg K) in
  let s' := exec cfg (sched ++ more) (init cfg K) in
  (returned s = 1 ->
     returned s' = 1 /\ counter s' = 1%Z /\ entered s' = entered s) /\
  (state s = 1%Z -> state s' = 1%Z).
Proof.
  intros s s'.
  assert (Hs' : s' = exec cfg more s) by (apply exec_app).
  pose proof (reachable_inv cfg K sched) as Hinv. fold s in Hinv.
  pose proof (reachable_inv cfg K (sched ++ more)) as Hinv'. fold s' in Hinv'.
  destruct (exec_history cfg more s) as (Hr & [extra He] & Hstate).
  rewrite <- Hs' in Hr, He, Hstate.
  split; [| exact Hstate].
  intros Hdone.
  assert (Hlen : length (entered s) = 1 /\ length (entered s') <= 1 /\
                 returned s' = 1 /\ counter s' = 1%Z).
  { unfold inv in Hinv, Hinv'.
    destruct (WIN32 cfg); unfold_inv;
      decompose [and or] Hinv; decompose [and or] Hinv'; lia. }
  destruct Hlen as (Hone & Hle & Hret & Hcnt).
  split; [exact Hret |]. split; [exact Hcnt |].
  rewrite He in Hle |- *. rewrite length_app in Hle.
  destruct extra; [reflexivity | simpl in Hle; lia].
Qed.

(** *** No reachable state is stuck *)

(** A caller outside the guarded region that finds the guard free gets
    through [thread_once] within seven steps of its own. *)
Lemma idle_caller_returns (cfg : config) (j : nat) (l : pc) (s : machine) :
  pcs s !! j = Some l -> idle_pc cfg l = true -> guard_free cfg s ->
  let s' := exec cfg (replicate 7 j) s in
  guard_free cfg s' /\ pcs s' = <[j := Returned]> (pcs s).
Proof.
  unfold guard_free. intros Hj Hidle Hfree.
  assert (Hlt : j < length (pcs s)) by (eapply lookup_lt_Some; exact Hj).
  destruct s as [lk st on c e r ps].
  cbn [lock once pcs replicate] in *.
  destruct (WIN32 cfg) eqn:Hwin; destruct l; cbn [idle_pc] in Hidle;
    rewrite ?Hwin in Hidle; try discriminate Hidle.
  - subst lk. do 2 advance Hlt.
    destruct (st =? 0)%Z; do 5 advance Hlt; cbn [exec lock pcs];
      split; reflexivity.
  - subst lk. do 3 advance Hlt.
    destruct (st =? 0)%Z; do 4 advance Hlt; cbn [exec lock pcs];
      split; reflexivity.
  - do 7 advance Hlt. cbn [exec lock pcs].
    split; [exact Hfree | symmetry; now apply list_insert_id].
  - destruct Hfree as [-> | ->]; do 7 advance Hlt; cbn [exec once pcs];
      (split; [right |]; reflexivity).
  - do 7 advance Hlt. cbn [exec once pcs].
    split; [exact Hfree | symmetry; now apply list_insert_id].
Qed.

(** The caller inside the guarded region leaves it, and frees the guard,
    within five steps of its own. *)
Lemma holder_returns (cfg : config) (i : nat) (l : pc) (s : machine) :
  pcs s !! i = Some l -> holder_pc l = true ->
  (if WIN32 cfg then l <> L144_done
   else l = InInit \/ l = L144_done) ->
  let s' := exec cfg (replicate 5 i) s in
  guard_free cfg s' /\ pcs s' = <[i := Returned]> (pcs s).
Proof.
  unfold guard_free. intros Hi Hl Hkind.
  assert (Hlt : i < length (pcs s)) by (eapply lookup_lt_Some; exact Hi).
  destruct s as [lk st on c e r ps].
  cbn [lock once pcs replicate] in *.
  destruct (WIN32 cfg) eqn:Hwin.
  - destruct l; try discriminate Hl; try congruence.
    + advance Hlt. destruct (st =? 0)%Z; do 4 advance Hlt;
        cbn [exec lock pcs]; split; reflexivity.
    + do 5 advance Hlt. cbn [exec lock pcs]. split; reflexivity.
    + do 5 advance Hlt. cbn [exec lock pcs]. split; reflexivity.
    + do 5 advance Hlt. cbn [exec lock pcs]. split; reflexivity.
    + do 5 advance Hlt. cbn [exec lock pcs]. split; reflexivity.
  - destruct Hkind as [-> | ->]; do 5 advance Hlt; cbn [exec once pcs];
      (split; [right |]; reflexivity).
Qed.

(** While the guard is free nobody is inside the guarded region. *)
Lemma free_guard_all_idle (cfg : config) (s : machine) (i : nat) (l : pc) :
  inv cfg s -> guard_free cfg s -> pcs s !! i = Some l ->
  idle_pc cfg l = true.
Proof.
  unfold inv, guard_free, idle_pc. intros Hinv Hfree Hi.
  pose proof (at_pc_lookup _ _ _ Hi) as Hcount.
  destruct (WIN32 cfg); unfold_inv; destruct l; try reflexivity; exfalso;
    decompose [and or] Hinv; lia.
Qed.

(** While the guard is taken somebody is inside the guarded region. *)
Lemma taken_guard_has_holder (cfg : config) (s : machine) :
  inv cfg s ->
  guard_free cfg s \/
  exists (i : nat) (l : pc),
    pcs s !! i = Some l /\ holder_pc l = true /\
    (if WIN32 cfg then l <> L144_done else l = InInit \/ l = L144_done).
Proof.
  unfold inv, guard_free. intros Hinv.
  destruct (WIN32 cfg).
  - assert (Hcases :
      lock s = 0%Z \/ 1 <= at_pc L138 (pcs s) \/ 1 <= at_pc L139 (pcs s) \/
      1 <= at_pc L140 (pcs s) \/ 1 <= at_pc InInit (pcs s) \/
      1 <= at_pc L142 (pcs s))
      by (unfold_inv; decompose [and or] Hinv; lia).
    destruct Hcases as [H | [H | [H | [H | [H | H]]]]]; [now left | ..];
      right; destruct (at_pc_pos _ _ H) as [i Hi]; eexists i, _;
      (split; [exact Hi | split; [reflexivity | discriminate]]).
  - assert (Hcases :
      (once s = 0%Z \/ once s = 2%Z) \/ 1 <= at_pc InInit (pcs s) \/
      1 <= at_pc L144_done (pcs s))
      by (unfold_inv; decompose [and or] Hinv; lia).
    destruct Hcases as [H | [H | H]]; [now left | ..];
      right; destruct (at_pc_pos _ _ H) as [i Hi]; eexists i, _;
      (split; [exact Hi | split; [reflexivity | auto]]).
Qed.

Lemma round_from (cfg : config) (n j : nat) (s : machine) :
  guard_free cfg s ->
  (forall (i : nat) (l : pc), pcs s !! i = Some l -> idle_pc cfg l = true) ->
  j + n <= length (pcs s) ->
  let s' := exec cfg (flat_map (fun i => replicate 7 i) (seq j n)) s in
  guard_free cfg s' /\
  forall i : nat,
    (j <= i < j + n -> pcs s' !! i = Some Returned) /\
    (~ j <= i < j + n -> pcs s' !! i = pcs s !! i).
Proof.
  revert j s. induction n as [| n IH]; intros j s Hfree Hidle Hlen.
  - cbn. split; [exact Hfree |]. intros i. split; [lia | reflexivity].
  - cbn [seq flat_map]. rewrite exec_app.
    destruct (lookup_lt_is_Some_2 (pcs s) j ltac:(lia)) as [l Hj].
    destruct (idle_caller_returns cfg j l s Hj (Hidle j l Hj) Hfree)
      as [Hfree1 Hpcs1].
    set (s1 := exec cfg (replicate 7 j) s) in *.
    assert (Hlt : j < length (pcs s)) by lia.
    destruct (IH (S j) s1 Hfree1) as [Hfree2 Hpcs2].
    { intros i li. rewrite Hpcs1.
      destruct (decide (j = i)) as [<- | Hne].
      - rewrite list_lookup_insert_eq by exact Hlt. now intros [= <-].
      - rewrite list_lookup_insert_ne by exact Hne. apply Hidle. }
    { rewrite Hpcs1, length_insert. lia. }
    split; [exact Hfree2 |]. intros i.
    destruct (Hpcs2 i) as [Hin Hout]. split.
    + intros Hi. destruct (decide (i = j)) as [-> | Hne].
      * rewrite Hout, Hpcs1 by lia. now apply list_lookup_insert_eq.
      * apply Hin. lia.
    + intros Hi. rewrite Hout, Hpcs1 by lia.
      apply list_lookup_insert_ne. lia.
Qed.

Lemma round_length (j n : nat) :
  length (flat_map (fun i => replicate 7 i) (seq j n)) = 7 * n.
Proof.
  revert j. induction n as [| n IH]; intros j; [reflexivity |].
  cbn [seq flat_map]. rewrite length_app, IH, length_replicate. lia.
Qed.

(** A free guard and one round later, everybody has returned. *)
Lemma round_all_returned (cfg : config) (s : machine) :
  inv cfg s -> guard_free cfg s ->
  all_returned (exec cfg (round (length (pcs s))) s) = true.
Proof.
  intros Hinv Hfree. unfold all_returned, round.
  apply all_returned_lookup. intros i Hi. rewrite exec_length in Hi.
  destruct (round_from cfg (length (pcs s)) 0 s Hfree) as [_ Hpcs].
  - intros k l Hk. exact (free_guard_all_idle cfg s k l Hinv Hfree Hk).
  - lia.
  - apply (Hpcs i). lia.
Qed.

(** X14: no deadlock.  From every point of every execution of K callers
    the execution can be continued so that all K callers have returned,
    within 5 + 7 K further steps: the caller inside the guarded region, if
    there is one, finishes and frees the guard, and then each of the
    others gets through. *)
Theorem thread_once_can_always_complete (cfg : config) (K : nat) (sched : list nat) :
  exists more : list nat,
    length more <= 5 + 7 * K /\
    all_returned (exec cfg (sched ++ more) (init cfg K)) = true.
Proof.
  pose proof (reachable_inv cfg K sched) as Hinv.
  set (s := exec cfg sched (init cfg K)) in *.
  assert (HK : length (pcs s) = K).
  { unfold s. rewrite exec_length. unfold init. cbn [pcs].
    apply length_replicate. }
  destruct (taken_guard_has_holder cfg s Hinv)
    as [Hfree | (i & l & Hi & Hl & Hkind)].
  - exists (round K). split.
    + unfold round. rewrite round_length. lia.
    + rewrite exec_app. fold s. rewrite <- HK.
      now apply round_all_returned.
  - exists (replicate 5 i ++ round K). split.
    + rewrite length_app, length_replicate. unfold round.
      rewrite round_length. lia.
    + rewrite exec_app. fold s. rewrite exec_app.
      destruct (holder_returns cfg i l s Hi Hl Hkind) as [Hfree1 Hpcs1].
      set (s1 := exec cfg (replicate 5 i) s) in *.
      assert (HK1 : length (pcs s1) = K)
        by (unfold s1; rewrite exec_length; exact HK).
      rewrite <- HK1. apply round_all_returned; [| exact Hfree1].
      unfold s1. now apply exec_inv.
Qed.

(** * Concrete runs of the further properties *)

Lemma thread_join_status_witness :
  (WIN32 windows = true /\ (0 <= WAIT_FAILED < 2 ^ 32)%Z) /\
  ret (run scripted_os (thread_join windows 5) ∅ (os0 [WAIT_FAILED])) = (-1)%Z.
Proof.
  split; [split; [reflexivity | split; [discriminate | reflexivity]] |].
  destruct (thread_join_status scripted_os windows 5 ∅ (os0 [WAIT_FAILED]))
    as (r & Hh & _ & _ & _ & Hwin).
  vm_compute in Hh. injection Hh as <-.
  destruct (Hwin eq_refl) as (_ & Hfailed & _).
  - split; [discriminate | reflexivity].
  - apply Hfailed. reflexivity.
Defined.

Lemma thread_reclaim_traces_witness :
  WIN32 windows = true /\
  exists a b : Z,
    trace (run scripted_os (thread_detach windows 5 ;; thread_free windows 5)
             ∅ (os0 [1; 0]%Z)) =
      [EvCall (CloseHandle 5) a; EvCall (CloseHandle 5) b].
Proof.
  split; [reflexivity |].
  destruct (thread_reclaim_traces scripted_os windows 5 ∅ (os0 [1; 0]%Z))
    as [Hwin _].
  destruct (Hwin eq_refl) as [Htwice _]. exact Htwice.
Defined.

Lemma thread_cancel_calls_os_iff_supported_witness :
  (WIN32 posix = false /\ HAVE_PTHREAD_CANCEL posix = true) /\
  trace (run scripted_os (thread_cancel posix 5) ∅ (os0 [3%Z])) <> [].
Proof.
  split; [split; reflexivity |].
  destruct (thread_cancel_calls_os_iff_supported scripted_os posix 5 ∅
              (os0 [3%Z])) as (Hiff & _ & _).
  apply Hiff. split; reflexivity.
Defined.

Lemma thread_new_then_alive_win32_witness :
  let created := run scripted_os (thread_new windows 64 1 2) ∅ (os0 [77%Z]) in
  (WIN32 windows = true /\ read ∅ 64 = NULL /\ ret created = 0%Z) /\
  read (mem_after created) 64 = 77%Z /\ read (mem_after created) 64 <> NULL.
Proof.
  intros created.
  assert (Hnull : read ∅ 64 = NULL) by (vm_compute; reflexivity).
  assert (Hret : ret created = 0%Z) by (vm_compute; reflexivity).
  split; [split; [reflexivity | split; assumption] |].
  destruct (thread_new_then_alive_win32 scripted_os windows 64 1 2 ∅
              (os0 [77%Z]) eq_refl Hnull) as [Hok _].
  destruct (Hok Hret) as (Hhandle & Hnn & _).
  split; [exact Hhandle | exact Hnn].
Defined.

Lemma cond_init_then_use_win32_witness :
  WIN32 windows = true /\
  read (mem_after (run scripted_os (cond_init windows 16) ∅ (os0 [81%Z]))) 16
  = 81%Z.
Proof.
  split; [reflexivity |].
  destruct (cond_init_then_use_win32 scripted_os windows 16 32 100 ∅
              (os0 [81%Z]) eq_refl) as (_ & Hsem & _).
  exact Hsem.
Defined.

Lemma cond_wait_timeout_uint_max_win32_witness :
  WIN32 windows = true /\
  trace (run scripted_os (cond_wait_timeout windows 16 32 CInt.UINT_MAX) ∅
           (os0 [])) =
  trace (run scripted_os (cond_wait windows 16 32) ∅ (os0 [])).
Proof.
  split; [reflexivity |].
  apply (cond_wait_timeout_uint_max_win32 scripted_os windows 16 32 ∅ (os0 [])).
  reflexivity.
Defined.

Lemma lock_wait_unlock_trace_witness :
  WIN32 windows = true /\
  exists r : Z,
    trace (run scripted_os
             (mutex_lock windows 32 ;;
              let* r := cond_wait windows 16 32 in
              mutex_unlock windows 32 ;; Ret r) ∅ (os0 [])) =
      [EvCall (EnterCriticalSection 32) tt;
       EvCall (LeaveCriticalSection 32) tt;
       EvCall (WaitForSingleObject (read ∅ 16) INFINITE) r;
       EvCall (LeaveCriticalSection 32) tt].
Proof.
  split; [reflexivity |].
  destruct (lock_wait_unlock_trace scripted_os windows 16 32 ∅ (os0 []))
    as [Hwin _].
  exact (Hwin eq_refl).
Defined.


Lemma facade_status_values_witness :
  WIN32 windows = true /\
  let r := ret (run scripted_os (cond_signal windows 16) ∅ (os0 [0%Z])) in
  r = 0%Z \/ r = (-1)%Z.
Proof.
  split; [reflexivity |].
  destruct (facade_status_values scripted_os windows 5 1 2 32 16 100 ∅
              (os0 [0%Z])) as [_ Hwin].
  destruct (Hwin eq_refl) as (_ & _ & Hsignal & _). exact Hsignal.
Defined.

Lemma deadline_zero_timeout_witness :
  let now := Timeval 9223372036854775807 999999 in
  ((32 <= LONG_BITS posix)%Z /\ CInt.in_signed (LONG_BITS posix) (tv_sec now)) /\
  deadline posix now 0 = Timespec 9223372036854775807 999999000.
Proof.
  intros now.
  assert (Hsec : CInt.in_signed (LONG_BITS posix) (tv_sec now))
    by (vm_compute; split; [discriminate | reflexivity]).
  split; [split; [discriminate | exact Hsec] |].
  apply (deadline_zero_timeout posix ltac:(discriminate) now Hsec).
  split; [discriminate | reflexivity].
Defined.

Lemma deadline_exact_iff_representable_witness :
  let now := Timeval 9223372036854775807 0 in
  (32 <= LONG_BITS posix)%Z /\
  ~ (exact_seconds now 1000 <= CInt.signed_max (LONG_BITS posix))%Z /\
  ~ deadline_exact posix now 1000.
Proof.
  intros now. split; [discriminate |].
  assert (Hsec : CInt.in_signed (LONG_BITS posix) (tv_sec now))
    by (vm_compute; split; [discriminate | reflexivity]).
  assert (Hnofit :
    ~ (exact_seconds now 1000 <= CInt.signed_max (LONG_BITS posix))%Z)
    by (vm_compute; intros Hle; apply Hle; reflexivity).
  split; [exact Hnofit |].
  intros Hexact. apply Hnofit.
  apply (deadline_exact_iff_representable posix ltac:(discriminate) now 1000);
    [exact Hsec | split; [discriminate | reflexivity]
    | vm_compute; split; [discriminate | reflexivity] | exact Hexact].
Defined.

Lemma deadline_monotone_witness :
  let now := Timeval 1700000000 999999 in
  let ns (ts : timespec) := (ts_sec ts * 1000000000 + ts_nsec ts)%Z in
  ((32 <= LONG_BITS posix)%Z /\ (20 <= 1500)%Z) /\
  (ns (deadline posix now 20) <= ns (deadline posix now 1500))%Z.
Proof.
  intros now ns. split; [split; discriminate |].
  apply (deadline_monotone posix ltac:(discriminate) now 20 1500).
  - vm_compute; split; [discriminate | reflexivity].
  - split; [discriminate | reflexivity].
  - vm_compute; split; [discriminate | reflexivity].
  - vm_compute; split; [discriminate | reflexivity].
  - discriminate.
  - vm_compute. discriminate.
Defined.

Lemma thread_once_mutual_exclusion_witness :
  let s := exec windows [0; 0; 0; 0; 1; 1; 1] (init windows 2) in
  (WIN32 windows = true /\ lock s = 1%Z) /\
  exists (i : nat) (l : pc), pcs s !! i = Some l /\ holder_pc l = true.
Proof.
  intros s. split; [split; reflexivity |].
  destruct (thread_once_mutual_exclusion windows 2 [0; 0; 0; 0; 1; 1; 1])
    as [_ Hwin].
  destruct (Hwin eq_refl) as [_ Hiff]. apply Hiff. reflexivity.
Defined.

Lemma thread_once_is_permanent_witness :
  let s := exec windows [0; 0; 0; 0; 0] (init windows 2) in
  let s' := exec windows ([0; 0; 0; 0; 0] ++ [1; 1; 0; 1; 1; 1])
              (init windows 2) in
  returned s = 1 /\
  returned s' = 1 /\ counter s' = 1%Z /\ entered s' = entered s.
Proof.
  intros s s'. split; [reflexivity |].
  destruct (thread_once_is_permanent windows 2 [0; 0; 0; 0; 0]
              [1; 1; 0; 1; 1; 1]) as [Hdone _].
  apply Hdone. reflexivity.
Defined.
